(** * SalaryLens: encrypted salary aggregation with verified decryption

    A shallow embedding of [contracts/SalaryLens.sol].  The contract keeps an
    encrypted running total and a plaintext count, hands out handles of the
    encrypted average, and accepts a decrypted average only together with a
    proof that the FHE library checks.

    The FHE library ([FHE.fromExternal], [FHE.add], [FHE.div],
    [FHE.checkSignatures]) is an external dependency of the contract; it is
    an interface here ([FHEVM]) and every general theorem holds for all of
    its implementations.  Two small implementations are given at the end of
    the definitions, to run the contract on concrete inputs.

    After [SalaryLens] come the example contracts that use the same library
    ([PublicDecrypt], [AccessControlExample], [EncryptSingleValue],
    [FHECounter]) and two pieces of the front end (the fetch-retry polyfill
    and the demo ledger), each in a module of its own. *)

From Stdlib Require Import NArith ZArith QArith Qround Lia List.
From stdpp Require Import base option gmap list strings.
Import ListNotations.

Local Open Scope N_scope.

(** ** Solidity value types *)

(** An [address] (160 bits), a [bytes32] and a [uint32] are unsigned
    integers of [N]; [bytes] is a list of bytes. *)

Definition max_uint32 : N := 4294967295.

(** [bytes32(0)]: an uninitialised [euint32] unwraps to it, and a mapping
    slot never written reads as it. *)
Definition bytes32_zero : N := 0.

(** Big-endian value of a byte string. *)
Definition be_to_N (bs : list Byte.byte) : N :=
  fold_left (fun acc b => acc * 256 + Byte.to_N b) bs 0.

(** [abi.decode(data, (uint32))]: the first 32-byte word, which must be
    there and must fit 32 bits; the decoder reverts otherwise. *)
Definition abi_decode_uint32 (data : list Byte.byte) : option N :=
  if (N.of_nat (length data) <? 32) then None
  else let v := be_to_N (firstn 32 data) in
       if v <=? max_uint32 then Some v else None.

(** [abi.encode(uint32)], used to build concrete inputs. *)
Fixpoint N_to_be (len : nat) (v : N) : list Byte.byte :=
  match len with
  | O => []
  | S k => N_to_be k (v / 256) ++
           [match Byte.of_N (v mod 256) with Some b => b | None => Byte.x00 end]
  end.

Definition abi_encode_uint32 (v : N) : list Byte.byte := N_to_be 32 v.

(** ** Events and errors of the contract *)

Inductive Event : Type :=
| SalarySubmitted (submitter : N) (newCount : N)
| AverageRequested (requester : N) (handle : N)
| AverageDecrypted (requester : N) (average : N).

(** The five errors the contract declares, and the reverts that do not
    come from a [revert] statement of the contract: the arithmetic panic of
    checked [count++], a revert raised inside [FHE.fromExternal] or inside
    [FHE.checkSignatures], and a revert of [abi.decode]. *)
Inductive Error : Type :=
| AlreadySubmitted
| NoSalariesSubmitted
| NoPendingDecryption
| InvalidDecryptionProof
| HandleAlreadyUsed
| Panic (code : N)
| FHE_InputProofRejected
| FHE_SignaturesRejected
| AbiDecodeFailed.

(** Calls made into the FHE library, in the order they are made. *)
Inductive FHECall : Type :=
| Call_fromExternal (sender : N) (inputHandle : N) (inputProof : list Byte.byte)
| Call_add (lhs rhs : N)
| Call_div (lhs : N) (divisor : N)
| Call_checkSignatures (handlesList : list N) (cleartexts proof : list Byte.byte).

(** ** The FHE library, as an interface *)

(** The library's operations, over the state of the coprocessor behind
    them.  [FHE_fromExternal] fails when the input proof does not validate
    for the contract and the sender; [FHE_checkSignatures] tells whether
    the decryption proof is valid for the handles and cleartexts. *)
Class FHEVM : Type := {
  coprocessor : Type;
  contract_address : N;
  FHE_fromExternal : coprocessor -> N -> N -> N -> list Byte.byte -> option (N * coprocessor);
  FHE_add : coprocessor -> N -> N -> N * coprocessor;
  FHE_div : coprocessor -> N -> N -> N * coprocessor;
  FHE_checkSignatures : coprocessor -> list N -> list Byte.byte -> list Byte.byte -> bool
}.

(** ** State *)

(** The storage of the contract.  A Solidity mapping is a finite map read
    with the default of its value type. *)
Record Storage : Type := mkStorage {
  encryptedTotal : N;
  count : N;
  hasSubmitted : gmap N bool;
  lastDecryptedAverage : gmap N N;
  pendingDecryptionHandles : gmap N N;
  usedHandles : gmap N bool
}.

Section Contract.
Context `{fhe : FHEVM}.

(** Everything a transaction can change or leave a trace in: the storage
    of the contract, the permission registry ([permissions], pairs of a
    handle and a principal, and [public_flag], the publicly decryptable
    handles), the state of the coprocessor, the events emitted so far and
    the calls made into the library so far. *)
Record World : Type := mkWorld {
  storage : Storage;
  permissions : gset (N * N);
  public_flag : gset N;
  engine : coprocessor;
  events : list Event;
  fhe_calls : list FHECall
}.

Definition with_storage (f : Storage -> Storage) (w : World) : World :=
  mkWorld (f (storage w)) (permissions w) (public_flag w) (engine w) (events w) (fhe_calls w).

Definition with_engine (e : coprocessor) (w : World) : World :=
  mkWorld (storage w) (permissions w) (public_flag w) e (events w) (fhe_calls w).

Definition log_call (c : FHECall) (w : World) : World :=
  mkWorld (storage w) (permissions w) (public_flag w) (engine w) (events w) (fhe_calls w ++ [c]).

Definition set_encryptedTotal (h : N) (s : Storage) : Storage :=
  mkStorage h (count s) (hasSubmitted s) (lastDecryptedAverage s)
            (pendingDecryptionHandles s) (usedHandles s).

Definition set_count (c : N) (s : Storage) : Storage :=
  mkStorage (encryptedTotal s) c (hasSubmitted s) (lastDecryptedAverage s)
            (pendingDecryptionHandles s) (usedHandles s).

Definition set_hasSubmitted (m : gmap N bool) (s : Storage) : Storage :=
  mkStorage (encryptedTotal s) (count s) m (lastDecryptedAverage s)
            (pendingDecryptionHandles s) (usedHandles s).

Definition set_lastDecryptedAverage (m : gmap N N) (s : Storage) : Storage :=
  mkStorage (encryptedTotal s) (count s) (hasSubmitted s) m
            (pendingDecryptionHandles s) (usedHandles s).

Definition set_pendingDecryptionHandles (m : gmap N N) (s : Storage) : Storage :=
  mkStorage (encryptedTotal s) (count s) (hasSubmitted s) (lastDecryptedAverage s)
            m (usedHandles s).

Definition set_usedHandles (m : gmap N bool) (s : Storage) : Storage :=
  mkStorage (encryptedTotal s) (count s) (hasSubmitted s) (lastDecryptedAverage s)
            (pendingDecryptionHandles s) m.

(** ** Transactions *)

(** A call runs on a world and either completes or reverts.  [Reverted]
    keeps the world as it was at the point of the revert, so that one can
    say what had been done by then; [transact] below discards it. *)
Inductive Outcome (A : Type) : Type :=
| Done (a : A) (w : World)
| Reverted (e : Error) (w : World).
Arguments Done {A} a w.
Arguments Reverted {A} e w.

Definition Tx (A : Type) : Type := World -> Outcome A.

Definition tx_ret {A} (a : A) : Tx A := fun w => Done a w.

Definition tx_bind {A B} (m : Tx A) (k : A -> Tx B) : Tx B :=
  fun w => match m w with
           | Done a w' => k a w'
           | Reverted e w' => Reverted e w'
           end.

Definition revert {A} (e : Error) : Tx A := fun w => Reverted e w.

Definition sload {A} (f : Storage -> A) : Tx A := fun w => Done (f (storage w)) w.

Definition sstore (f : Storage -> Storage) : Tx unit := fun w => Done tt (with_storage f w).

Definition emit (ev : Event) : Tx unit :=
  fun w => Done tt (mkWorld (storage w) (permissions w) (public_flag w) (engine w)
                            (events w ++ [ev]) (fhe_calls w)).

Notation "'let*' x ':=' m 'in' k" := (tx_bind m (fun x => k))
  (at level 10, x name, m at level 100, k at level 200).
Notation "m ';;' k" := (tx_bind m (fun _ => k))
  (at level 100, k at level 200, right associativity).

(** *** The library calls, inside a transaction *)

Definition FHE_fromExternal_tx (msg_sender inputHandle : N) (inputProof : list Byte.byte) : Tx N :=
  fun w =>
    let w1 := log_call (Call_fromExternal msg_sender inputHandle inputProof) w in
    match FHE_fromExternal (engine w) contract_address msg_sender inputHandle inputProof with
    | Some (h, e') => Done h (with_engine e' w1)
    | None => Reverted FHE_InputProofRejected w1
    end.

Definition FHE_add_tx (lhs rhs : N) : Tx N :=
  fun w =>
    let w1 := log_call (Call_add lhs rhs) w in
    let '(h, e') := FHE_add (engine w) lhs rhs in
    Done h (with_engine e' w1).

Definition FHE_div_tx (lhs divisor : N) : Tx N :=
  fun w =>
    let w1 := log_call (Call_div lhs divisor) w in
    let '(h, e') := FHE_div (engine w) lhs divisor in
    Done h (with_engine e' w1).

Definition FHE_checkSignatures_tx (handlesList : list N) (cleartexts proof : list Byte.byte) : Tx unit :=
  fun w =>
    let w1 := log_call (Call_checkSignatures handlesList cleartexts proof) w in
    if FHE_checkSignatures (engine w) handlesList cleartexts proof
    then Done tt w1
    else Reverted FHE_SignaturesRejected w1.

(** Modelled from the spec: the Permission Registry behind [FHE.allowThis],
    [FHE.allow] and [FHE.makePubliclyDecryptable] is not in the repository;
    a grant always succeeds and only adds the (handle, principal) entry, and
    marking a handle publicly decryptable only sets its flag. *)
Definition FHE_allow (h principal : N) : Tx unit :=
  fun w => Done tt (mkWorld (storage w) ({[ (h, principal) ]} ∪ permissions w)
                            (public_flag w) (engine w) (events w) (fhe_calls w)).

Definition FHE_allowThis (h : N) : Tx unit := FHE_allow h contract_address.

Definition FHE_makePubliclyDecryptable (h : N) : Tx unit :=
  fun w => Done tt (mkWorld (storage w) (permissions w) ({[ h ]} ∪ public_flag w)
                            (engine w) (events w) (fhe_calls w)).

Definition abi_decode_tx (data : list Byte.byte) : Tx N :=
  fun w => match abi_decode_uint32 data with
           | Some v => Done v w
           | None => Reverted AbiDecodeFailed w
           end.

(** *** Reading the mappings *)

Definition hasSubmitted_at (s : Storage) (a : N) : bool :=
  default false (hasSubmitted s !! a).

Definition lastDecryptedAverage_at (s : Storage) (a : N) : N :=
  default 0 (lastDecryptedAverage s !! a).

Definition pendingDecryptionHandles_at (s : Storage) (a : N) : N :=
  default bytes32_zero (pendingDecryptionHandles s !! a).

Definition usedHandles_at (s : Storage) (h : N) : bool :=
  default false (usedHandles s !! h).

(** ** The contract *)

(** [constructor]: [count = 0], every other slot at its default. *)
Definition constructor (e : coprocessor) : World :=
  mkWorld (mkStorage bytes32_zero 0 ∅ ∅ ∅ ∅) ∅ ∅ e [] [].

(** Checked [count++] of Solidity 0.8. *)
Definition increment_count : Tx unit :=
  let* c := sload count in
  if c <? max_uint32 then sstore (set_count (c + 1)) else revert (Panic 17).

Definition addSalary (msg_sender : N) (encryptedSalary : N) (inputProof : list Byte.byte) : Tx unit :=
  let* submitted := sload (fun s => hasSubmitted_at s msg_sender) in
  (if submitted then revert AlreadySubmitted else tx_ret tt);;
  let* salary := FHE_fromExternal_tx msg_sender encryptedSalary inputProof in
  FHE_allowThis salary;;
  let* c := sload count in
  (if c =? 0 then sstore (set_encryptedTotal salary)
   else
     let* total := sload encryptedTotal in
     let* sum := FHE_add_tx total salary in
     sstore (set_encryptedTotal sum));;
  increment_count;;
  sstore (fun s => set_hasSubmitted (<[msg_sender := true]> (hasSubmitted s)) s);;
  let* total := sload encryptedTotal in
  FHE_allowThis total;;
  FHE_allow total msg_sender;;
  let* c' := sload count in
  emit (SalarySubmitted msg_sender c').

Definition requestAverageDecryption (msg_sender : N) : Tx N :=
  let* c := sload count in
  (if c =? 0 then revert NoSalariesSubmitted else tx_ret tt);;
  let* total := sload encryptedTotal in
  let* encryptedAverage := FHE_div_tx total c in
  FHE_allowThis encryptedAverage;;
  FHE_allow encryptedAverage msg_sender;;
  FHE_makePubliclyDecryptable encryptedAverage;;
  let handle := encryptedAverage in
  sstore (fun s => set_pendingDecryptionHandles
                     (<[msg_sender := handle]> (pendingDecryptionHandles s)) s);;
  emit (AverageRequested msg_sender handle);;
  tx_ret handle.

Definition verifyDecryption (msg_sender : N) (abiEncodedCleartexts decryptionProof : list Byte.byte) : Tx unit :=
  let* handle := sload (fun s => pendingDecryptionHandles_at s msg_sender) in
  (if handle =? bytes32_zero then revert NoPendingDecryption else tx_ret tt);;
  let* used := sload (fun s => usedHandles_at s handle) in
  (if used then revert HandleAlreadyUsed else tx_ret tt);;
  let handlesList := [handle] in
  FHE_checkSignatures_tx handlesList abiEncodedCleartexts decryptionProof;;
  let* decryptedAverage := abi_decode_tx abiEncodedCleartexts in
  sstore (fun s => set_lastDecryptedAverage
                     (<[msg_sender := decryptedAverage]> (lastDecryptedAverage s)) s);;
  sstore (fun s => set_usedHandles (<[handle := true]> (usedHandles s)) s);;
  sstore (fun s => set_pendingDecryptionHandles
                     (delete msg_sender (pendingDecryptionHandles s)) s);;
  emit (AverageDecrypted msg_sender decryptedAverage).

(** *** View functions *)

Definition getCount (w : World) : N := count (storage w).

Definition hasUserSubmitted (w : World) (user : N) : bool :=
  hasSubmitted_at (storage w) user.

Definition getLastAverage (w : World) (user : N) : N :=
  lastDecryptedAverage_at (storage w) user.

Definition getPendingHandle (w : World) (user : N) : N :=
  pendingDecryptionHandles_at (storage w) user.

(** ** The worlds the calls lead to *)

(** The world after a completed [addSalary]. *)
Definition addSalary_world (w : World) (p salary total' : N) (e' : coprocessor)
    (more_calls : list FHECall) (enc : N) (proof : list Byte.byte) : World :=
  let s := storage w in
  mkWorld
    (mkStorage total' (count s + 1) (<[p := true]> (hasSubmitted s))
               (lastDecryptedAverage s) (pendingDecryptionHandles s) (usedHandles s))
    ({[ (total', p) ]} ∪ ({[ (total', contract_address) ]} ∪
       ({[ (salary, contract_address) ]} ∪ permissions w)))
    (public_flag w) e'
    (events w ++ [SalarySubmitted p (count s + 1)])
    (fhe_calls w ++ Call_fromExternal p enc proof :: more_calls).

(** The world after a completed [requestAverageDecryption] that got
    [handle] from the library, the coprocessor being left in [e']. *)
Definition requestAverage_world (w : World) (requester handle : N) (e' : coprocessor) : World :=
  let s := storage w in
  mkWorld
    (mkStorage (encryptedTotal s) (count s) (hasSubmitted s) (lastDecryptedAverage s)
               (<[requester := handle]> (pendingDecryptionHandles s)) (usedHandles s))
    ({[ (handle, requester) ]} ∪ ({[ (handle, contract_address) ]} ∪ permissions w))
    ({[ handle ]} ∪ public_flag w) e'
    (events w ++ [AverageRequested requester handle])
    (fhe_calls w ++ [Call_div (encryptedTotal s) (count s)]).

(** The world after a completed [verifyDecryption] that consumed [handle]
    and decoded [average]. *)
Definition verifyDecryption_world (w : World) (requester handle average : N)
    (cleartexts proof : list Byte.byte) : World :=
  let s := storage w in
  mkWorld
    (mkStorage (encryptedTotal s) (count s) (hasSubmitted s)
               (<[requester := average]> (lastDecryptedAverage s))
               (delete requester (pendingDecryptionHandles s))
               (<[handle := true]> (usedHandles s)))
    (permissions w) (public_flag w) (engine w)
    (events w ++ [AverageDecrypted requester average])
    (fhe_calls w ++ [Call_checkSignatures [handle] cleartexts proof]).

(** ** The ledger: one transaction after another *)

(** A transaction that reverts leaves no trace: the world is the one
    before the call. *)
Definition transact {A} (m : Tx A) (w : World) : (Error + A) * World :=
  match m w with
  | Done a w' => (inr a, w')
  | Reverted e _ => (inl e, w)
  end.

Inductive Call : Type :=
| CallAddSalary (encryptedSalary : N) (inputProof : list Byte.byte)
| CallRequestAverageDecryption
| CallVerifyDecryption (abiEncodedCleartexts decryptionProof : list Byte.byte).

Definition execute (msg_sender : N) (c : Call) : Tx (option N) :=
  match c with
  | CallAddSalary encryptedSalary inputProof =>
      addSalary msg_sender encryptedSalary inputProof;; tx_ret None
  | CallRequestAverageDecryption =>
      let* h := requestAverageDecryption msg_sender in tx_ret (Some h)
  | CallVerifyDecryption cleartexts proof =>
      verifyDecryption msg_sender cleartexts proof;; tx_ret None
  end.

Definition step (w : World) (tx : N * Call) : World :=
  snd (transact (execute (fst tx) (snd tx)) w).

Definition run (w : World) (txs : list (N * Call)) : World :=
  fold_left step txs w.

Inductive reachable : World -> Prop :=
| reachable_constructor e : reachable (constructor e)
| reachable_step w tx : reachable w -> reachable (step w tx).

(** A step either changes nothing (the call reverted) or is one of the
    three completed calls. *)
Inductive step_kind (w : World) (p : N) : Call -> World -> Prop :=
| step_reverted c : step_kind w p c w
| step_addSalary enc proof w' :
    addSalary p enc proof w = Done tt w' ->
    step_kind w p (CallAddSalary enc proof) w'
| step_requestAverage :
    count (storage w) <> 0 ->
    step_kind w p CallRequestAverageDecryption
      (requestAverage_world w p
         (fst (FHE_div (engine w) (encryptedTotal (storage w)) (count (storage w))))
         (snd (FHE_div (engine w) (encryptedTotal (storage w)) (count (storage w)))))
| step_verifyDecryption cleartexts proof average :
    getPendingHandle w p <> bytes32_zero ->
    usedHandles_at (storage w) (getPendingHandle w p) = false ->
    FHE_checkSignatures (engine w) [getPendingHandle w p] cleartexts proof = true ->
    abi_decode_uint32 cleartexts = Some average ->
    step_kind w p (CallVerifyDecryption cleartexts proof)
      (verifyDecryption_world w p (getPendingHandle w p) average cleartexts proof).

(** The world at the end of an execution, completed or not. *)
Definition outcome_world {A} (o : Outcome A) : World :=
  match o with
  | Done _ w' => w'
  | Reverted _ w' => w'
  end.

Definition completes {A} (o : Outcome A) : bool :=
  match o with
  | Done _ _ => true
  | Reverted _ _ => false
  end.

(** Along a run, the handles returned to [r] by its completed
    [requestAverageDecryption] calls, and the handles consumed by its
    completed [verifyDecryption] calls ([verifyDecryption] reads the handle
    from [pendingDecryptionHandles[msg.sender]]). *)
Fixpoint requested_handles (r : N) (w : World) (txs : list (N * Call)) : list N :=
  match txs with
  | [] => []
  | tx :: rest =>
      match snd tx with
      | CallRequestAverageDecryption =>
          if fst tx =? r then
            match requestAverageDecryption r w with
            | Done h _ => [h]
            | Reverted _ _ => []
            end
          else []
      | _ => []
      end ++ requested_handles r (step w tx) rest
  end.


(** The errors raised by the contract's own checks. *)
Definition policy_errors : list Error :=
  [AlreadySubmitted; NoSalariesSubmitted; NoPendingDecryption; HandleAlreadyUsed].

(** What the contract expects of the library's handles: a handle it
    returns is initialised (not [bytes32(0)]), and the handle of a sum is a
    new one, not the handle of its left operand. *)
Definition handles_initialised : Prop :=
  (forall e c p h proof r e',
     FHE_fromExternal e c p h proof = Some (r, e') -> r <> bytes32_zero) /\
  (forall e a b, fst (FHE_add e a b) <> bytes32_zero).

Definition add_yields_new_handle : Prop :=
  forall e a b, fst (FHE_add e a b) <> a.


(** The per-requester state machine of the decryption tracker. *)
Inductive RequestState : Type := NONE | PENDING.

Definition request_state (w : World) (requester : N) : RequestState :=
  if getPendingHandle w requester =? bytes32_zero then NONE else PENDING.

End Contract.

Arguments Done {fhe A} a w.
Arguments Reverted {fhe A} e w.

(** ** Two implementations of the library interface *)

(** A coprocessor in which a handle is the plaintext itself, the way the
    test suite fakes encrypted inputs ([createMockEncryptedInput]): sums and
    quotients are computed on the values, and a decryption is accepted when
    the cleartext is the value of the handle. *)
Definition plain_checkSignatures (hs : list N) (cleartexts : list Byte.byte) : bool :=
  match hs with
  | [h] => match abi_decode_uint32 cleartexts with
           | Some v => v =? h
           | None => false
           end
  | _ => false
  end.

Definition PlainEngine : FHEVM := {|
  coprocessor := unit;
  contract_address := 1000;
  FHE_fromExternal := fun e _ _ h _ => if h <=? max_uint32 then Some (h, e) else None;
  FHE_add := fun e a b => ((a + b) mod (max_uint32 + 1), e);
  FHE_div := fun e a n => (a / n, e);
  FHE_checkSignatures := fun _ hs cleartexts _ => plain_checkSignatures hs cleartexts
|}.

(** A coprocessor whose handles name the operation and its operands, as
    hash-derived handles do: the result of an operation is never the null
    handle and never one of its operands.  An input proof is accepted when
    it names the sender, a decryption proof when it names the handle. *)
Definition pair_code (a b : N) : N := (a + b) * (a + b) + b.

Definition sym_checkSignatures (hs : list N) (proof : list Byte.byte) : bool :=
  match hs with
  | [h] => be_to_N proof =? h
  | _ => false
  end.

Definition SymEngine : FHEVM := {|
  coprocessor := unit;
  contract_address := 1000;
  FHE_fromExternal := fun e _ sender h proof =>
    if be_to_N proof =? sender then Some (3 * h + 1, e) else None;
  FHE_add := fun e a b => (3 * pair_code a b + 2, e);
  FHE_div := fun e a n => (3 * pair_code a n + 3, e);
  FHE_checkSignatures := fun _ hs _ proof => sym_checkSignatures hs proof
|}.

Definition alice : N := 1.
Definition bob : N := 2.
Definition carol : N := 3.
Definition dave : N := 4.

(** Worlds reached on the symbolic coprocessor.  Alice submits; Bob and
    Carol both request the average and get the same handle, 18; Bob has it
    verified. *)
Definition sym_submitted : @World SymEngine :=
  run (constructor (fhe := SymEngine) tt) [(alice, CallAddSalary 0 [Byte.x01])].

Definition sym_requested : @World SymEngine :=
  run sym_submitted [(bob, CallRequestAverageDecryption);
                     (carol, CallRequestAverageDecryption)].

Definition sym_verified : @World SymEngine :=
  run sym_requested [(bob, CallVerifyDecryption (abi_encode_uint32 0) [Byte.x12])].



(** Bob's request verified with the cleartext 60000. *)
Definition sym_verified_60000 : @World SymEngine :=
  run sym_requested [(bob, CallVerifyDecryption (abi_encode_uint32 60000) [Byte.x12])].

(** ** Submitted salaries and their plaintexts *)

(** Along a run, the handles that [FHE.fromExternal] returned to the
    completed [addSalary] calls, in order. *)
Fixpoint salary_handles `{fhe : FHEVM} (w : World) (txs : list (N * Call)) : list N :=
  match txs with
  | [] => []
  | tx :: rest =>
      match snd tx with
      | CallAddSalary enc proof =>
          if completes (addSalary (fst tx) enc proof w) then
            match FHE_fromExternal (engine w) contract_address (fst tx) enc proof with
            | Some (h, _) => [h]
            | None => []
            end
          else []
      | _ => []
      end ++ salary_handles (step w tx) rest
  end.

Definition N_sum (l : list N) : N := foldr N.add 0 l.

(** A library is homomorphic for a decryption map [plain] of handles to
    32-bit values when the handle of a sum decrypts to the sum modulo 2^32
    and the handle of a quotient by a non-zero plaintext to the quotient. *)
Definition homomorphic `{fhe : FHEVM} (plain : N -> N) : Prop :=
  (forall h, plain h <= max_uint32) /\
  (forall e a b, plain (fst (FHE_add e a b)) = (plain a + plain b) mod (max_uint32 + 1)) /\
  (forall e a n, n <> 0 -> plain (fst (FHE_div e a n)) = plain a / n).

(** The plaintext coprocessor with every handle read modulo 2^32. *)
Definition WrapEngine : FHEVM := {|
  coprocessor := unit;
  contract_address := 1000;
  FHE_fromExternal := fun e _ _ h _ => if h <=? max_uint32 then Some (h, e) else None;
  FHE_add := fun e a b => ((a + b) mod (max_uint32 + 1), e);
  FHE_div := fun e a n => ((a mod (max_uint32 + 1)) / n, e);
  FHE_checkSignatures := fun _ hs cleartexts _ => plain_checkSignatures hs cleartexts
|}.

Definition wrap_plain (h : N) : N := h mod (max_uint32 + 1).

(** ** Reading the event log and the call log *)

(** The [SalarySubmitted] events, as (submitter, newCount), in order. *)
Definition salary_submissions (evs : list Event) : list (N * N) :=
  omap (fun ev => match ev with
                  | SalarySubmitted p c => Some (p, c)
                  | _ => None
                  end) evs.

(** The [AverageDecrypted] events, as (requester, average), in order. *)
Definition decrypted_averages (evs : list Event) : list (N * N) :=
  omap (fun ev => match ev with
                  | AverageDecrypted r a => Some (r, a)
                  | _ => None
                  end) evs.

(** The average of the latest [AverageDecrypted] event of [r], 0 without
    one; the handle of the latest [AverageRequested] event of [r], which is
    where the front end reads the handle from. *)
Definition latest_decrypted (r : N) (evs : list Event) : N :=
  fold_left (fun acc ev => match ev with
                           | AverageDecrypted q a => if q =? r then a else acc
                           | _ => acc
                           end) evs 0.

Definition latest_requested (r : N) (evs : list Event) : N :=
  fold_left (fun acc ev => match ev with
                           | AverageRequested q h => if q =? r then h else acc
                           | _ => acc
                           end) evs bytes32_zero.

(** The handles passed to [FHE.checkSignatures], in order. *)
Definition checked_handles (calls : list FHECall) : list N :=
  flat_map (fun c => match c with
                     | Call_checkSignatures hs _ _ => hs
                     | _ => []
                     end) calls.

(** * The example contracts

    The contracts under [contracts/examples] and [examples-output] use the
    same library and the same permission calls as [SalaryLens].  They fail
    with [require] and a reason string; a reverted call leaves no trace. *)

Inductive Revert : Type :=
| Require_failed (reason : string)
| Input_proof_rejected
| Signatures_rejected
| Decode_failed.

(** Two more operations of the library: [FHE.asEuint32(v)], the trivial
    encryption of a plaintext, and [FHE.add(a, v)] with a plaintext right
    operand. *)
Class FHEVMScalar `{fhe : FHEVM} : Type := {
  FHE_asEuint32 : coprocessor -> N -> N * coprocessor;
  FHE_add_scalar : coprocessor -> N -> N -> N * coprocessor
}.

(** [FHE.isInitialized]: the handle is not [bytes32(0)]. *)
Definition FHE_isInitialized (h : N) : bool := negb (h =? bytes32_zero).

Section Chain.
Context `{fhe : FHEVM} `{sc : !FHEVMScalar}.
Context {S Ev : Type}.

(** The storage [S] of a contract together with the permission registry,
    the coprocessor and the events [Ev] emitted so far. *)
Record Env : Type := mkEnv {
  env_storage : S;
  env_permissions : gset (N * N);
  env_public : gset N;
  env_engine : coprocessor;
  env_events : list Ev
}.

Inductive Res (A : Type) : Type :=
| Ok (a : A) (env : Env)
| Fail (r : Revert).
Arguments Ok {A} a env.
Arguments Fail {A} r.

Definition Op (A : Type) : Type := Env -> Res A.

Definition op_ret {A} (a : A) : Op A := fun env => Ok a env.

Definition op_bind {A B} (m : Op A) (k : A -> Op B) : Op B :=
  fun env => match m env with
             | Ok a env' => k a env'
             | Fail r => Fail r
             end.

Definition op_require (cond : bool) (reason : string) : Op unit :=
  fun env => if cond then Ok tt env else Fail (Require_failed reason).

Definition op_load {A} (f : S -> A) : Op A := fun env => Ok (f (env_storage env)) env.

Definition op_store (f : S -> S) : Op unit :=
  fun env => Ok tt (mkEnv (f (env_storage env)) (env_permissions env) (env_public env)
                          (env_engine env) (env_events env)).

Definition op_emit (ev : Ev) : Op unit :=
  fun env => Ok tt (mkEnv (env_storage env) (env_permissions env) (env_public env)
                          (env_engine env) (env_events env ++ [ev])).

Definition with_env_engine (e : coprocessor) (env : Env) : Env :=
  mkEnv (env_storage env) (env_permissions env) (env_public env) e (env_events env).

Definition op_fromExternal (msg_sender inputHandle : N) (inputProof : list Byte.byte) : Op N :=
  fun env =>
    match FHE_fromExternal (env_engine env) contract_address msg_sender inputHandle inputProof with
    | Some (h, e') => Ok h (with_env_engine e' env)
    | None => Fail Input_proof_rejected
    end.

Definition op_add (lhs rhs : N) : Op N :=
  fun env => let '(h, e') := FHE_add (env_engine env) lhs rhs in Ok h (with_env_engine e' env).

Definition op_add_scalar (lhs v : N) : Op N :=
  fun env => let '(h, e') := FHE_add_scalar (env_engine env) lhs v in
             Ok h (with_env_engine e' env).

Definition op_asEuint32 (v : N) : Op N :=
  fun env => let '(h, e') := FHE_asEuint32 (env_engine env) v in Ok h (with_env_engine e' env).

Definition op_checkSignatures (handlesList : list N) (cleartexts proof : list Byte.byte) : Op unit :=
  fun env => if FHE_checkSignatures (env_engine env) handlesList cleartexts proof
             then Ok tt env else Fail Signatures_rejected.

(** Modelled from the spec: the Permission Registry, as for [FHE_allow]
    above: a grant only adds its entry, a public mark only sets its flag. *)
Definition op_allow (h principal : N) : Op unit :=
  fun env => Ok tt (mkEnv (env_storage env) ({[ (h, principal) ]} ∪ env_permissions env)
                          (env_public env) (env_engine env) (env_events env)).

Definition op_allowThis (h : N) : Op unit := op_allow h contract_address.

Definition op_makePubliclyDecryptable (h : N) : Op unit :=
  fun env => Ok tt (mkEnv (env_storage env) (env_permissions env) ({[ h ]} ∪ env_public env)
                          (env_engine env) (env_events env)).

Definition op_decode (data : list Byte.byte) : Op N :=
  fun env => match abi_decode_uint32 data with
             | Some v => Ok v env
             | None => Fail Decode_failed
             end.

(** The chain after a call: a reverted call changes nothing. *)
Definition commit {A} (m : Op A) (env : Env) : Env :=
  match m env with
  | Ok _ env' => env'
  | Fail _ => env
  end.

Definition succeeds {A} (m : Op A) (env : Env) : bool :=
  match m env with
  | Ok _ _ => true
  | Fail _ => false
  end.

End Chain.

Arguments Env {fhe} S Ev.
Arguments mkEnv {fhe S Ev}.
Arguments Res {fhe} S Ev A.
Arguments Ok {fhe S Ev A} a env.
Arguments Fail {fhe S Ev A} r.
Arguments Op {fhe} S Ev A.

Definition SymScalar : @FHEVMScalar SymEngine := {|
  FHE_asEuint32 := fun e v => (3 * v + 1, e);
  FHE_add_scalar := fun e a v => (3 * pair_code a v + 2, e)
|}.

Definition WrapScalar : @FHEVMScalar WrapEngine := {|
  FHE_asEuint32 := fun e v => (v mod (max_uint32 + 1), e);
  FHE_add_scalar := fun e a v => ((a + v) mod (max_uint32 + 1), e)
|}.

(** ** PublicDecrypt *)

Module PublicDecrypt.

Record Storage : Type := mkStorage {
  encryptedValue : N;
  decryptedResult : N;
  pendingHandle : N;
  isDecrypted : bool
}.

Inductive Event : Type :=
| ValueSet (handle : N)
| DecryptionRequested (handle : N)
| DecryptionVerified (result : N).

Definition set_encryptedValue (h : N) (s : Storage) : Storage :=
  mkStorage h (decryptedResult s) (pendingHandle s) (isDecrypted s).
Definition set_decryptedResult (v : N) (s : Storage) : Storage :=
  mkStorage (encryptedValue s) v (pendingHandle s) (isDecrypted s).
Definition set_pendingHandle (h : N) (s : Storage) : Storage :=
  mkStorage (encryptedValue s) (decryptedResult s) h (isDecrypted s).
Definition set_isDecrypted (b : bool) (s : Storage) : Storage :=
  mkStorage (encryptedValue s) (decryptedResult s) (pendingHandle s) b.

Section Code.
Context `{fhe : FHEVM} `{sc : !FHEVMScalar}.
Notation "'let*' x ':=' m 'in' k" := (op_bind m (fun x => k))
  (at level 10, x name, m at level 100, k at level 200).
Notation "m ';;' k" := (op_bind m (fun _ => k))
  (at level 100, k at level 200, right associativity).

(** [constructor]: the value is the trivial encryption of 42. *)
Definition constructor (e : coprocessor) : Env Storage Event :=
  commit (let* fresh := op_asEuint32 42 in
          op_store (set_encryptedValue fresh);;
          let* v := op_load encryptedValue in
          op_allowThis v)
         (mkEnv (mkStorage bytes32_zero 0 bytes32_zero false) ∅ ∅ e []).

Definition setValue (msg_sender newValue : N) (inputProof : list Byte.byte)
  : Op Storage Event unit :=
  let* fresh := op_fromExternal msg_sender newValue inputProof in
  op_store (set_encryptedValue fresh);;
  let* v := op_load encryptedValue in
  op_allowThis v;;
  op_allow v msg_sender;;
  op_store (set_isDecrypted false);;
  op_store (set_pendingHandle bytes32_zero);;
  let* v' := op_load encryptedValue in
  op_emit (ValueSet v').

Definition requestDecryption (msg_sender : N) : Op Storage Event N :=
  let* v := op_load encryptedValue in
  op_allowThis v;;
  op_allow v msg_sender;;
  op_makePubliclyDecryptable v;;
  let handle := v in
  op_store (set_pendingHandle handle);;
  op_emit (DecryptionRequested handle);;
  op_ret handle.

Definition verifyDecryption (msg_sender : N) (abiEncodedCleartexts decryptionProof : list Byte.byte)
  : Op Storage Event unit :=
  let* pending := op_load pendingHandle in
  op_require (negb (pending =? bytes32_zero)) "No pending decryption";;
  let handlesList := [pending] in
  op_checkSignatures handlesList abiEncodedCleartexts decryptionProof;;
  let* result := op_decode abiEncodedCleartexts in
  op_store (set_decryptedResult result);;
  op_store (set_isDecrypted true);;
  op_store (set_pendingHandle bytes32_zero);;
  let* stored := op_load decryptedResult in
  op_emit (DecryptionVerified stored).

Inductive Call : Type :=
| CallSetValue (newValue : N) (inputProof : list Byte.byte)
| CallRequestDecryption
| CallVerifyDecryption (abiEncodedCleartexts decryptionProof : list Byte.byte).

Definition step (env : Env Storage Event) (tx : N * Call) : Env Storage Event :=
  match snd tx with
  | CallSetValue newValue inputProof => commit (setValue (fst tx) newValue inputProof) env
  | CallRequestDecryption => commit (requestDecryption (fst tx)) env
  | CallVerifyDecryption cleartexts proof => commit (verifyDecryption (fst tx) cleartexts proof) env
  end.

Definition run (env : Env Storage Event) (txs : list (N * Call)) : Env Storage Event :=
  fold_left step txs env.

Inductive reachable : Env Storage Event -> Prop :=
| reachable_constructor e : reachable (constructor e)
| reachable_step env tx : reachable env -> reachable (step env tx).

(** What a step can be. *)
Inductive step_kind (env : Env Storage Event) : Env Storage Event -> Prop :=
| kind_reverted : step_kind env env
| kind_setValue sender v e' :
    step_kind env
      (mkEnv (mkStorage v (decryptedResult (env_storage env)) bytes32_zero false)
             ({[ (v, sender) ]} ∪ ({[ (v, contract_address) ]} ∪ env_permissions env))
             (env_public env) e' (env_events env ++ [ValueSet v]))
| kind_requestDecryption sender :
    step_kind env
      (mkEnv (mkStorage (encryptedValue (env_storage env)) (decryptedResult (env_storage env))
                        (encryptedValue (env_storage env)) (isDecrypted (env_storage env)))
             ({[ (encryptedValue (env_storage env), sender) ]} ∪
              ({[ (encryptedValue (env_storage env), contract_address) ]} ∪ env_permissions env))
             ({[ encryptedValue (env_storage env) ]} ∪ env_public env) (env_engine env)
             (env_events env ++ [DecryptionRequested (encryptedValue (env_storage env))]))
| kind_verifyDecryption v :
    pendingHandle (env_storage env) <> bytes32_zero ->
    step_kind env
      (mkEnv (mkStorage (encryptedValue (env_storage env)) v bytes32_zero true)
             (env_permissions env) (env_public env) (env_engine env)
             (env_events env ++ [DecryptionVerified v])).

(** What the events say about the result: [Some v] when the latest of the
    [ValueSet] and [DecryptionVerified] events is [DecryptionVerified v]. *)
Definition verified_result (evs : list Event) : option N :=
  fold_left (fun acc ev => match ev with
                           | ValueSet _ => None
                           | DecryptionVerified v => Some v
                           | DecryptionRequested _ => acc
                           end) evs None.

End Code.

(** On the symbolic coprocessor the initial value has the handle 127;
    Alice requests its decryption, and the cleartext 42 with a proof naming
    127 is verified. *)
Definition pd_deployed : Env (fhe := SymEngine) Storage Event :=
  constructor (fhe := SymEngine) (sc := SymScalar) tt.

Definition pd_requested : Env (fhe := SymEngine) Storage Event :=
  run pd_deployed [(alice, CallRequestDecryption)].

Definition pd_verified : Env (fhe := SymEngine) Storage Event :=
  run pd_requested [(bob, CallVerifyDecryption (abi_encode_uint32 42) [Byte.x7f])].

End PublicDecrypt.

(** ** AccessControlExample *)

Module AccessControl.

Record Storage : Type := mkStorage {
  balances : gmap N N;
  hasViewAccess : gmap (N * N) bool
}.

Inductive Event : Type :=
| BalanceSet (user : N)
| AccessGranted (owner viewer : N).

Definition balances_at (a : N) (s : Storage) : N :=
  default bytes32_zero (balances s !! a).

Definition hasViewAccess_at (owner viewer : N) (s : Storage) : bool :=
  default false (hasViewAccess s !! (owner, viewer)).

Section Code.
Context `{fhe : FHEVM}.
Notation "'let*' x ':=' m 'in' k" := (op_bind m (fun x => k))
  (at level 10, x name, m at level 100, k at level 200).
Notation "m ';;' k" := (op_bind m (fun _ => k))
  (at level 100, k at level 200, right associativity).

Definition constructor (e : coprocessor) : Env Storage Event :=
  mkEnv (mkStorage ∅ ∅) ∅ ∅ e [].

Definition setBalance (msg_sender encryptedBalance : N) (inputProof : list Byte.byte)
  : Op Storage Event unit :=
  let* balance := op_fromExternal msg_sender encryptedBalance inputProof in
  op_store (fun s => mkStorage (<[msg_sender := balance]> (balances s)) (hasViewAccess s));;
  op_allowThis balance;;
  op_allow balance msg_sender;;
  op_emit (BalanceSet msg_sender).

Definition grantViewAccess (msg_sender viewer : N) : Op Storage Event unit :=
  let* stored := op_load (balances_at msg_sender) in
  op_require (FHE_isInitialized stored) "No balance set";;
  let* balance := op_load (balances_at msg_sender) in
  op_allow balance viewer;;
  op_store (fun s => mkStorage (balances s)
                       (<[(msg_sender, viewer) := true]> (hasViewAccess s)));;
  op_emit (AccessGranted msg_sender viewer).

Definition requestOwnDecryption (msg_sender : N) : Op Storage Event N :=
  let* stored := op_load (balances_at msg_sender) in
  op_require (FHE_isInitialized stored) "No balance";;
  let* balance := op_load (balances_at msg_sender) in
  op_allowThis balance;;
  op_allow balance msg_sender;;
  op_makePubliclyDecryptable balance;;
  op_ret balance.

Definition requestViewerDecryption (msg_sender owner : N) : Op Storage Event N :=
  let* granted := op_load (hasViewAccess_at owner msg_sender) in
  op_require granted "No view access";;
  let* stored := op_load (balances_at owner) in
  op_require (FHE_isInitialized stored) "No balance";;
  let* balance := op_load (balances_at owner) in
  op_makePubliclyDecryptable balance;;
  op_ret balance.

Inductive Call : Type :=
| CallSetBalance (encryptedBalance : N) (inputProof : list Byte.byte)
| CallGrantViewAccess (viewer : N)
| CallRequestOwnDecryption
| CallRequestViewerDecryption (owner : N).

Definition step (env : Env Storage Event) (tx : N * Call) : Env Storage Event :=
  match snd tx with
  | CallSetBalance encryptedBalance inputProof =>
      commit (setBalance (fst tx) encryptedBalance inputProof) env
  | CallGrantViewAccess viewer => commit (grantViewAccess (fst tx) viewer) env
  | CallRequestOwnDecryption => commit (requestOwnDecryption (fst tx)) env
  | CallRequestViewerDecryption owner => commit (requestViewerDecryption (fst tx) owner) env
  end.

Definition run (env : Env Storage Event) (txs : list (N * Call)) : Env Storage Event :=
  fold_left step txs env.

Inductive reachable : Env Storage Event -> Prop :=
| reachable_constructor e : reachable (constructor e)
| reachable_step env tx : reachable env -> reachable (step env tx).

End Code.

(** Alice sets a balance (handle 31) and grants Bob view access; then she
    sets a new balance (handle 61). *)
Definition ac_granted : Env (fhe := SymEngine) Storage Event :=
  run (constructor (fhe := SymEngine) tt)
      [(alice, CallSetBalance 10 [Byte.x01]); (alice, CallGrantViewAccess bob)].

Definition ac_rebalanced : Env (fhe := SymEngine) Storage Event :=
  run ac_granted [(alice, CallSetBalance 20 [Byte.x01])].

End AccessControl.

(** ** EncryptSingleValue *)

Module EncryptSingleValue.

Record Storage : Type := mkStorage {
  userValues : gmap N N;
  hasStoredValue : gmap N bool
}.

Inductive Event : Type :=
| ValueStored (user : N).

Definition userValues_at (a : N) (s : Storage) : N :=
  default bytes32_zero (userValues s !! a).

Definition hasStoredValue_at (a : N) (s : Storage) : bool :=
  default false (hasStoredValue s !! a).

Section Code.
Context `{fhe : FHEVM}.
Notation "'let*' x ':=' m 'in' k" := (op_bind m (fun x => k))
  (at level 10, x name, m at level 100, k at level 200).
Notation "m ';;' k" := (op_bind m (fun _ => k))
  (at level 100, k at level 200, right associativity).

Definition constructor (e : coprocessor) : Env Storage Event :=
  mkEnv (mkStorage ∅ ∅) ∅ ∅ e [].

Definition storeValue (msg_sender encryptedValue : N) (inputProof : list Byte.byte)
  : Op Storage Event unit :=
  let* value := op_fromExternal msg_sender encryptedValue inputProof in
  op_store (fun s => mkStorage (<[msg_sender := value]> (userValues s)) (hasStoredValue s));;
  op_store (fun s => mkStorage (userValues s) (<[msg_sender := true]> (hasStoredValue s)));;
  op_allowThis value;;
  op_allow value msg_sender;;
  op_emit (ValueStored msg_sender).

Definition requestDecryption (msg_sender : N) : Op Storage Event N :=
  let* stored := op_load (hasStoredValue_at msg_sender) in
  op_require stored "No value stored";;
  let* value := op_load (userValues_at msg_sender) in
  op_allowThis value;;
  op_allow value msg_sender;;
  op_makePubliclyDecryptable value;;
  op_ret value.

Inductive Call : Type :=
| CallStoreValue (encryptedValue : N) (inputProof : list Byte.byte)
| CallRequestDecryption.

Definition step (env : Env Storage Event) (tx : N * Call) : Env Storage Event :=
  match snd tx with
  | CallStoreValue encryptedValue inputProof =>
      commit (storeValue (fst tx) encryptedValue inputProof) env
  | CallRequestDecryption => commit (requestDecryption (fst tx)) env
  end.

Definition run (env : Env Storage Event) (txs : list (N * Call)) : Env Storage Event :=
  fold_left step txs env.

(** [tx] is not a [storeValue] of [user]. *)
Definition no_store_by (user : N) (tx : N * Call) : Prop :=
  fst tx = user -> snd tx = CallRequestDecryption.

End Code.
End EncryptSingleValue.

(** ** FHECounter *)

Module FHECounter.

Record Storage : Type := mkStorage {
  encryptedCounter : N
}.

Inductive Event : Type :=
| CounterIncremented (by_ : N)
| DecryptionRequested (handle : N).

Inductive Call : Type :=
| CallIncrement
| CallAddEncrypted (encryptedValue : N) (inputProof : list Byte.byte)
| CallRequestDecryption.

Section Code.
Context `{fhe : FHEVM} `{sc : !FHEVMScalar}.
Notation "'let*' x ':=' m 'in' k" := (op_bind m (fun x => k))
  (at level 10, x name, m at level 100, k at level 200).
Notation "m ';;' k" := (op_bind m (fun _ => k))
  (at level 100, k at level 200, right associativity).

(** [constructor]: the counter is the trivial encryption of 0. *)
Definition constructor (e : coprocessor) : Env Storage Event :=
  commit (let* fresh := op_asEuint32 0 in
          op_store (fun _ => mkStorage fresh);;
          let* c := op_load encryptedCounter in
          op_allowThis c)
         (mkEnv (mkStorage bytes32_zero) ∅ ∅ e []).

Definition increment (msg_sender : N) : Op Storage Event unit :=
  let* c := op_load encryptedCounter in
  let* sum := op_add_scalar c 1 in
  op_store (fun _ => mkStorage sum);;
  let* c' := op_load encryptedCounter in
  op_allowThis c';;
  op_allow c' msg_sender;;
  op_emit (CounterIncremented msg_sender).

Definition addEncrypted (msg_sender encryptedValue : N) (inputProof : list Byte.byte)
  : Op Storage Event unit :=
  let* value := op_fromExternal msg_sender encryptedValue inputProof in
  let* c := op_load encryptedCounter in
  let* sum := op_add c value in
  op_store (fun _ => mkStorage sum);;
  let* c' := op_load encryptedCounter in
  op_allowThis c';;
  op_allow c' msg_sender;;
  op_emit (CounterIncremented msg_sender).

Definition requestDecryption (msg_sender : N) : Op Storage Event N :=
  let* c := op_load encryptedCounter in
  op_allowThis c;;
  op_allow c msg_sender;;
  op_makePubliclyDecryptable c;;
  let handle := c in
  op_emit (DecryptionRequested handle);;
  op_ret handle.

Definition step (env : Env Storage Event) (tx : N * Call) : Env Storage Event :=
  match snd tx with
  | CallIncrement => commit (increment (fst tx)) env
  | CallAddEncrypted encryptedValue inputProof =>
      commit (addEncrypted (fst tx) encryptedValue inputProof) env
  | CallRequestDecryption => commit (requestDecryption (fst tx)) env
  end.

Definition run (env : Env Storage Event) (txs : list (N * Call)) : Env Storage Event :=
  fold_left step txs env.

(** Along a run, what each completed call adds to the counter: 1 for an
    [increment], the plaintext of the input for an [addEncrypted]. *)
Fixpoint additions (plain : N -> N) (env : Env Storage Event) (txs : list (N * Call)) : list N :=
  match txs with
  | [] => []
  | tx :: rest =>
      match snd tx with
      | CallIncrement => [1]
      | CallAddEncrypted encryptedValue inputProof =>
          match FHE_fromExternal (env_engine env) contract_address (fst tx)
                  encryptedValue inputProof with
          | Some (h, _) => [plain h]
          | None => []
          end
      | CallRequestDecryption => []
      end ++ additions plain (step env tx) rest
  end.

(** A homomorphic library whose trivial encryptions and sums with a
    plaintext decrypt as expected, modulo 2^32. *)
Definition homomorphic_scalar (plain : N -> N) : Prop :=
  homomorphic plain /\
  (forall e v, plain (fst (FHE_asEuint32 e v)) = v mod (max_uint32 + 1)) /\
  (forall e a v, plain (fst (FHE_add_scalar e a v)) = (plain a + v) mod (max_uint32 + 1)).

End Code.
End FHECounter.

(** * The front end

    ** fetch-retry polyfill ([fetchRetry])

    [fetchWithRetry] calls [fetch] again while the outcome is to be retried
    and the attempt number is below [retries].  The delay between attempts
    ([retryDelay], [setTimeout]) is not part of the model: it does not
    change which calls are made or how the promise settles.  Every call to
    [fetch] is taken to settle, and a [retryOn] or [retryDelay] function to
    return. *)

Module FetchRetry.

(** A JavaScript number, as far as a comparison with an integer can tell:
    not a number, an infinity, or a finite value.  A finite double is a
    rational, and the comparisons below are exact on rationals. *)
Inductive JSNumber : Type :=
| NaN
| PosInfinity
| NegInfinity
| Finite (q : Q).

Definition integer (z : Z) : JSNumber := Finite (inject_Z z).

(** The attempt counter starts at 0 and is only ever incremented: it is an
    integer, and [attempt + 1] is exact below 2^53, where it rounds back to
    [attempt]. *)
Definition max_exact : N := 9007199254740992.

Definition next_attempt (attempt : N) : N :=
  if attempt <? max_exact then attempt + 1 else attempt.

(** [attempt < retries]. *)
Definition below (attempt : N) (retries : JSNumber) : bool :=
  match retries with
  | NaN => false
  | PosInfinity => true
  | NegInfinity => false
  | Finite q => (Z.of_N attempt * Z.pos (Qden q) <? Qnum q)%Z
  end.

(** [retryOn.includes(response.status)]: the status is an integer, and an
    element of the array is found when it has the same value. *)
Definition same_value (status : Z) (x : JSNumber) : bool :=
  match x with
  | Finite q => (Qnum q =? status * Z.pos (Qden q))%Z
  | _ => false
  end.

Definition includes (statuses : list JSNumber) (status : Z) : bool :=
  existsb (same_value status) statuses.

Section Code.
(** A response, of which only the status matters here, and an error. *)
Context {Response Err : Type}.
Context (status : Response -> Z).

(** [retryOn]: a list of statuses or a function of the attempt, the error
    and the response (one of the two being [null]). *)
Inductive RetryOn : Type :=
| StatusList (statuses : list JSNumber)
| Decider (f : N -> option Err -> option Response -> bool).

Record RetryOptions : Type := mkOptions {
  retries : option JSNumber;
  retryOn : option RetryOn
}.

(** [a ?? b ?? c] over the optional fields of [init] and [defaults]. *)
Definition nullish {A} (a b : option A) (c : A) : A :=
  match a with
  | Some x => x
  | None => match b with
            | Some y => y
            | None => c
            end
  end.

Definition chosen_retries (init defaults : option RetryOptions) : JSNumber :=
  nullish (init ≫= retries) (defaults ≫= retries) (integer 3).

Definition chosen_retryOn (init defaults : option RetryOptions) : RetryOn :=
  nullish (init ≫= retryOn) (defaults ≫= retryOn)
          (StatusList [integer 500; integer 502; integer 503; integer 504]).

(** How the promise settles. *)
Inductive Settled : Type :=
| Resolved (response : Response)
| Rejected (error : Err).

(** [fetch k] is the outcome of the call to [fetch] number [k], the first
    call being number 0. *)
Context (fetch : nat -> Response + Err).

Definition settle (outcome : Response + Err) : Settled :=
  match outcome with
  | inl response => Resolved response
  | inr error => Rejected error
  end.

(** [shouldRetry] of the two handlers. *)
Definition shouldRetry (on : RetryOn) (limit : JSNumber) (attempt : N)
    (outcome : Response + Err) : bool :=
  match outcome with
  | inl response =>
      match on with
      | StatusList statuses => includes statuses (status response)
      | Decider f => f attempt None (Some response)
      end
  | inr error =>
      match on with
      | Decider f => f attempt (Some error) None
      | StatusList _ => below attempt limit
      end
  end.

(** [attemptFetch(attempt)], [calls] calls to [fetch] having been made
    before; the result is how the promise settles and the number of calls
    to [fetch] made.  [fuel] bounds the recursion: [None] says that the
    promise has not settled within [fuel] calls. *)
Fixpoint attemptFetch (on : RetryOn) (limit : JSNumber) (fuel calls : nat) (attempt : N)
  : option (Settled * nat) :=
  match fuel with
  | O => None
  | S fuel' =>
      let outcome := fetch calls in
      if shouldRetry on limit attempt outcome && below attempt limit
      then attemptFetch on limit fuel' (S calls) (next_attempt attempt)
      else Some (settle outcome, S calls)
  end.

Definition fetchWithRetry (fuel : nat) (defaults init : option RetryOptions)
  : option (Settled * nat) :=
  attemptFetch (chosen_retryOn init defaults) (chosen_retries init defaults) fuel 0 0.

(** The attempt number with which call [k] is made. *)
Definition attempt_of (k : nat) : N := N.min (N.of_nat k) max_exact.

(** Call [k] is to be retried as far as [retryOn] goes. *)
Definition retryable (on : RetryOn) (limit : JSNumber) (k : nat) : Prop :=
  shouldRetry on limit (attempt_of k) (fetch k) = true.

End Code.

(** The number of retries that [retries] allows: the least attempt number
    that is not below it, when the counter gets that far. *)
Definition retry_budget (limit : JSNumber) : option nat :=
  match limit with
  | NaN => Some 0%nat
  | NegInfinity => Some 0%nat
  | PosInfinity => None
  | Finite q =>
      let c := Z.max 0 (Qceiling q) in
      if (c <=? Z.of_N max_exact)%Z then Some (Z.to_nat c) else None
  end.

(** A server that answers 503 twice and then 200, and one that always
    answers 503. *)
Definition flaky (k : nat) : Z + unit :=
  if (k <? 2)%nat then inl 503%Z else inl 200%Z.

Definition always_503 (k : nat) : Z + unit := inl 503%Z.

End FetchRetry.

(** ** Demo ledger of the application ([demoData])

    The in-memory stand-in for the contract that the application uses in
    demo mode: the salaries and the addresses that submitted. *)

Module DemoData.

Record Data : Type := mkData {
  salaries : list Z;
  submittedAddresses : list string
}.

Definition hasSubmitted (d : Data) (address : string) : bool :=
  bool_decide (address ∈ submittedAddresses d).

(** [addSalary]: the salary is always appended; the address only when it is
    not there yet. *)
Definition addSalary (d : Data) (salary : Z) (address : string) : Data :=
  mkData (salaries d ++ [salary])
         (if bool_decide (address ∈ submittedAddresses d)
          then submittedAddresses d
          else submittedAddresses d ++ [address]).

Definition getCount (d : Data) : nat := length (salaries d).

Definition clear (d : Data) : Data := mkData [] [].

Definition empty : Data := mkData [] [].

Inductive Action : Type :=
| AddSalary (salary : Z) (address : string)
| Clear.

Definition apply_action (d : Data) (a : Action) : Data :=
  match a with
  | AddSalary salary address => addSalary d salary address
  | Clear => clear d
  end.

Definition replay (d : Data) (actions : list Action) : Data :=
  fold_left apply_action actions d.

(** The salaries and addresses added since the last [Clear]. *)
Fixpoint since_clear (actions : list Action) (acc : list (Z * string)) : list (Z * string) :=
  match actions with
  | [] => acc
  | AddSalary salary address :: rest => since_clear rest (acc ++ [(salary, address)])
  | Clear :: rest => since_clear rest []
  end.

End DemoData.

(** * Properties *)

Section Properties.
Context `{fhe : FHEVM}.

Ltac tx_unfold :=
  unfold addSalary, requestAverageDecryption, verifyDecryption, increment_count,
    tx_bind, tx_ret, revert, sload, sstore, emit,
    FHE_fromExternal_tx, FHE_add_tx, FHE_div_tx, FHE_checkSignatures_tx,
    FHE_allowThis, FHE_allow, FHE_makePubliclyDecryptable, abi_decode_tx in *.

(** Membership in a list of distinct constructors that cannot hold. *)
Ltac elem_of_absurd H :=
  repeat (apply elem_of_cons in H as [H|H]; [discriminate H|]);
  apply not_elem_of_nil in H; contradiction.

(** ** What each call does, case by case *)

Lemma addSalary_inv w p enc proof w' :
  addSalary p enc proof w = Done tt w' ->
  hasSubmitted_at (storage w) p = false /\
  count (storage w) < max_uint32 /\
  exists salary e1,
    FHE_fromExternal (engine w) contract_address p enc proof = Some (salary, e1) /\
    ((count (storage w) = 0 /\
      w' = addSalary_world w p salary salary e1 [] enc proof) \/
     (count (storage w) <> 0 /\
      w' = addSalary_world w p salary
             (fst (FHE_add e1 (encryptedTotal (storage w)) salary))
             (snd (FHE_add e1 (encryptedTotal (storage w)) salary))
             [Call_add (encryptedTotal (storage w)) salary] enc proof)).
Proof.
  tx_unfold. intros H.
  destruct (hasSubmitted_at (storage w) p) eqn:Hs; [discriminate|].
  destruct (FHE_fromExternal (engine w) contract_address p enc proof) as [[salary e1]|] eqn:Hx;
    [|discriminate].
  split; [reflexivity|].
  cbn in H.
  destruct (count (storage w) =? 0) eqn:Hc.
  - apply N.eqb_eq in Hc. cbn in H. rewrite Hc in H. cbn in H.
    injection H as <-. split; [rewrite Hc; reflexivity|].
    exists salary, e1. split; [reflexivity|]. left. split; [assumption|].
    unfold addSalary_world. rewrite Hc. reflexivity.
  - apply N.eqb_neq in Hc. cbn in H.
    destruct (FHE_add e1 (encryptedTotal (storage w)) salary) as [sum e2] eqn:Ha.
    cbn in H.
    destruct (count (storage w) <? max_uint32) eqn:Hlt; [|discriminate].
    apply N.ltb_lt in Hlt. cbn in H. injection H as <-.
    split; [assumption|].
    exists salary, e1. split; [reflexivity|]. right. split; [assumption|].
    rewrite Ha. unfold addSalary_world. cbn. rewrite <- app_assoc. reflexivity.
Qed.

(** The outcomes of [addSalary] that are not a completed call. *)
Lemma addSalary_reverted w p enc proof e w' :
  addSalary p enc proof w = Reverted e w' ->
  (e = AlreadySubmitted /\ hasSubmitted_at (storage w) p = true /\ w' = w) \/
  (e = FHE_InputProofRejected /\ hasSubmitted_at (storage w) p = false /\
   FHE_fromExternal (engine w) contract_address p enc proof = None /\
   w' = log_call (Call_fromExternal p enc proof) w) \/
  (e = Panic 17 /\ hasSubmitted_at (storage w) p = false /\
   max_uint32 <= count (storage w)).
Proof.
  tx_unfold. intros H.
  destruct (hasSubmitted_at (storage w) p) eqn:Hs.
  { injection H as <- <-. left. auto. }
  destruct (FHE_fromExternal (engine w) contract_address p enc proof) as [[salary e1]|] eqn:Hx.
  2:{ injection H as <- <-. right. left. auto. }
  right. right. cbn in H.
  destruct (count (storage w) =? 0) eqn:Hc.
  - apply N.eqb_eq in Hc. cbn in H. rewrite Hc in H. cbn in H. discriminate.
  - cbn in H.
    destruct (FHE_add e1 (encryptedTotal (storage w)) salary) as [sum e2] eqn:Ha.
    cbn in H.
    destruct (count (storage w) <? max_uint32) eqn:Hlt; [discriminate|].
    injection H as <- _. apply N.ltb_ge in Hlt.
    split; [reflexivity|]. split; [reflexivity|]. assumption.
Qed.

Lemma requestAverageDecryption_eq w r :
  requestAverageDecryption r w =
  if count (storage w) =? 0 then Reverted NoSalariesSubmitted w
  else let d := FHE_div (engine w) (encryptedTotal (storage w)) (count (storage w)) in
       Done (fst d) (requestAverage_world w r (fst d) (snd d)).
Proof.
  tx_unfold. cbn.
  destruct (count (storage w) =? 0); [reflexivity|]. cbn.
  destruct (FHE_div (engine w) (encryptedTotal (storage w)) (count (storage w))) as [h e'].
  reflexivity.
Qed.

Lemma verifyDecryption_eq w r cleartexts proof :
  verifyDecryption r cleartexts proof w =
  let handle := getPendingHandle w r in
  if handle =? bytes32_zero then Reverted NoPendingDecryption w
  else if usedHandles_at (storage w) handle then Reverted HandleAlreadyUsed w
  else if FHE_checkSignatures (engine w) [handle] cleartexts proof then
         match abi_decode_uint32 cleartexts with
         | Some average => Done tt (verifyDecryption_world w r handle average cleartexts proof)
         | None => Reverted AbiDecodeFailed
                     (log_call (Call_checkSignatures [handle] cleartexts proof) w)
         end
       else Reverted FHE_SignaturesRejected
              (log_call (Call_checkSignatures [handle] cleartexts proof) w).
Proof.
  tx_unfold. unfold getPendingHandle. cbn.
  destruct (pendingDecryptionHandles_at (storage w) r =? bytes32_zero); [reflexivity|]. cbn.
  destruct (usedHandles_at (storage w) (pendingDecryptionHandles_at (storage w) r));
    [reflexivity|]. cbn.
  destruct (FHE_checkSignatures _ _ _ _); [|reflexivity]. cbn.
  destruct (abi_decode_uint32 cleartexts); reflexivity.
Qed.

(** ** One step of the ledger *)

Lemma transact_Done {A} (m : Tx A) w a w' :
  m w = Done a w' -> transact m w = (inr a, w').
Proof. unfold transact. intros ->. reflexivity. Qed.

Lemma transact_Reverted {A} (m : Tx A) w e w' :
  m w = Reverted e w' -> transact m w = (inl e, w).
Proof. unfold transact. intros ->. reflexivity. Qed.

Lemma transact_failed {A} (m : Tx A) w e :
  fst (transact m w) = inl e -> exists w', m w = Reverted e w'.
Proof.
  unfold transact. destruct (m w) as [a w'|e' w']; cbn; intros H.
  - discriminate.
  - injection H as ->. eauto.
Qed.

Lemma step_inv w p c : step_kind w p c (step w (p, c)).
Proof.
  unfold step, transact, execute, tx_bind, tx_ret. cbn [fst snd].
  destruct c as [enc proof| |cleartexts proof].
  - destruct (addSalary p enc proof w) as [[] w'|e w'] eqn:H; cbn.
    + apply step_addSalary. assumption.
    + apply step_reverted.
  - rewrite requestAverageDecryption_eq.
    destruct (count (storage w) =? 0) eqn:Hc; cbn.
    + apply step_reverted.
    + apply step_requestAverage. apply N.eqb_neq. assumption.
  - rewrite verifyDecryption_eq. cbn zeta.
    destruct (getPendingHandle w p =? bytes32_zero) eqn:Hz; cbn; [apply step_reverted|].
    destruct (usedHandles_at (storage w) (getPendingHandle w p)) eqn:Hu; cbn;
      [apply step_reverted|].
    destruct (FHE_checkSignatures _ _ _ _) eqn:Hs; cbn; [|apply step_reverted].
    destruct (abi_decode_uint32 cleartexts) as [average|] eqn:Hd; cbn; [|apply step_reverted].
    apply step_verifyDecryption; try assumption. apply N.eqb_neq. assumption.
Qed.

Lemma reachable_run w txs : reachable w -> reachable (run w txs).
Proof.
  revert w. induction txs as [|tx txs IH]; intros w Hw; cbn.
  - assumption.
  - apply IH. apply reachable_step. assumption.
Qed.

Lemma run_app w txs1 txs2 : run w (txs1 ++ txs2) = run (run w txs1) txs2.
Proof. unfold run. apply fold_left_app. Qed.

(** *** The replay guard only grows *)

Lemma usedHandles_step w tx h :
  usedHandles_at (storage w) h = true ->
  usedHandles_at (storage (step w tx)) h = true.
Proof.
  destruct tx as [p c]. intros Hu.
  destruct (step_inv w p c) as [c|enc proof w' Hadd|Hc|cleartexts proof average Hz Hn Hs Hd].
  - assumption.
  - apply addSalary_inv in Hadd as (_ & _ & salary & e1 & _ & [[_ ->]|[_ ->]]); exact Hu.
  - exact Hu.
  - unfold usedHandles_at in *. cbn.
    destruct (decide (getPendingHandle w p = h)) as [->|Hne].
    + rewrite lookup_insert_eq. reflexivity.
    + rewrite lookup_insert_ne by assumption. exact Hu.
Qed.

Lemma usedHandles_run w txs h :
  usedHandles_at (storage w) h = true ->
  usedHandles_at (storage (run w txs)) h = true.
Proof.
  revert w. induction txs as [|tx txs IH]; intros w Hu; cbn.
  - assumption.
  - apply IH. apply usedHandles_step. assumption.
Qed.

(** The null handle is never marked used: [verifyDecryption] stops at
    [NoPendingDecryption] before it could be. *)
Lemma usedHandles_zero w :
  reachable w -> usedHandles_at (storage w) bytes32_zero = false.
Proof.
  induction 1 as [e|w [p c] Hw IH].
  - reflexivity.
  - destruct (step_inv w p c) as [c|enc proof w' Hadd|Hc|cleartexts proof average Hz Hn Hs Hd].
    + assumption.
    + apply addSalary_inv in Hadd as (_ & _ & salary & e1 & _ & [[_ ->]|[_ ->]]); exact IH.
    + exact IH.
    + unfold usedHandles_at in *. cbn. rewrite lookup_insert_ne by assumption. exact IH.
Qed.

(** *** The submission record only grows *)

Lemma hasSubmitted_step w tx p :
  hasSubmitted_at (storage w) p = true ->
  hasSubmitted_at (storage (step w tx)) p = true.
Proof.
  destruct tx as [q c]. intros Hs.
  destruct (step_inv w q c) as [c|enc proof w' Hadd|Hc|cleartexts proof average Hz Hn Hk Hd].
  - assumption.
  - apply addSalary_inv in Hadd as (_ & _ & salary & e1 & _ & [[_ ->]|[_ ->]]);
      unfold hasSubmitted_at in *; cbn;
      (destruct (decide (q = p)) as [->|Hne];
       [rewrite lookup_insert_eq; reflexivity
       |rewrite lookup_insert_ne by assumption; exact Hs]).
  - exact Hs.
  - exact Hs.
Qed.

Lemma hasSubmitted_run w txs p :
  hasSubmitted_at (storage w) p = true ->
  hasSubmitted_at (storage (run w txs)) p = true.
Proof.
  revert w. induction txs as [|tx txs IH]; intros w Hs; cbn.
  - assumption.
  - apply IH. apply hasSubmitted_step. assumption.
Qed.

Lemma addSalary_AlreadySubmitted w p enc proof :
  hasSubmitted_at (storage w) p = true ->
  addSalary p enc proof w = Reverted AlreadySubmitted w.
Proof. tx_unfold. intros ->. reflexivity. Qed.

(** *** The count and the total *)

Lemma count_step w tx :
  let w' := step w tx in
  count (storage w') = count (storage w) \/
  (count (storage w') = count (storage w) + 1 /\
   count (storage w) < max_uint32 /\
   exists enc proof, snd tx = CallAddSalary enc proof).
Proof.
  destruct tx as [p c]. cbn zeta.
  destruct (step_inv w p c) as [c|enc proof w' Hadd|Hc|cleartexts proof average Hz Hn Hk Hd].
  - left. reflexivity.
  - right. apply addSalary_inv in Hadd as (_ & Hlt & salary & e1 & _ & [[_ ->]|[_ ->]]);
      (split; [reflexivity|split; [assumption|eauto]]).
  - left. reflexivity.
  - left. reflexivity.
Qed.

Lemma count_bounded w : reachable w -> count (storage w) <= max_uint32.
Proof.
  induction 1 as [e|w tx Hw IH].
  - cbn. discriminate.
  - destruct (count_step w tx) as [->|(-> & Hlt & _)]; lia.
Qed.

Lemma total_initialised_iff w :
  handles_initialised -> reachable w ->
  (count (storage w) = 0 <-> encryptedTotal (storage w) = bytes32_zero).
Proof.
  intros [Hext Hadd]. induction 1 as [e|w [p c] Hw IH].
  - cbn. split; reflexivity.
  - destruct (step_inv w p c) as [c|enc proof w' Ha|Hc|cleartexts proof average Hz Hn Hk Hd].
    + assumption.
    + apply addSalary_inv in Ha as (_ & _ & salary & e1 & Hx & [[_ ->]|[_ ->]]); cbn.
      * apply Hext in Hx. split; [lia|]. intros ->. contradiction.
      * specialize (Hadd e1 (encryptedTotal (storage w)) salary).
        split; [lia|]. intros Heq. contradiction.
    + exact IH.
    + exact IH.
Qed.

(** ** Submission *)

(** C4.  A completed [addSalary] by [p] obtained a handle from the external
    ciphertext.  If [count] was 0, the new [encryptedTotal] is that handle
    and no sum was computed; otherwise it is the handle returned by
    [FHE.add(old encryptedTotal, new handle)], which, with a library whose
    sums are new handles, differs from the old total, so the old total is
    not stored any more.  Afterwards [count] is the old count plus 1, [p] is
    marked as having submitted, and the one event added is
    [SalarySubmitted(p, newCount)] with [newCount] the updated count. *)
Theorem addSalary_effects (w w' : World) (p enc : N) (proof : list Byte.byte) :
  add_yields_new_handle ->
  addSalary p enc proof w = Done tt w' ->
  exists newHandle e1,
    FHE_fromExternal (engine w) contract_address p enc proof = Some (newHandle, e1) /\
    (getCount w = 0 ->
     encryptedTotal (storage w') = newHandle /\
     fhe_calls w' = fhe_calls w ++ [Call_fromExternal p enc proof]) /\
    (getCount w <> 0 ->
     encryptedTotal (storage w')
     = fst (FHE_add e1 (encryptedTotal (storage w)) newHandle) /\
     encryptedTotal (storage w') <> encryptedTotal (storage w) /\
     fhe_calls w' = fhe_calls w ++ [Call_fromExternal p enc proof;
                                    Call_add (encryptedTotal (storage w)) newHandle]) /\
    getCount w' = getCount w + 1 /\
    hasUserSubmitted w' p = true /\
    events w' = events w ++ [SalarySubmitted p (getCount w')].
Proof.
  intros Hfresh H.
  apply addSalary_inv in H as (_ & _ & salary & e1 & Hx & Hcases).
  exists salary, e1. split; [exact Hx|].
  assert (Hsub : forall total' e' more,
             hasUserSubmitted (addSalary_world w p salary total' e' more enc proof) p = true).
  { intros. unfold hasUserSubmitted, hasSubmitted_at. cbn.
    rewrite lookup_insert_eq. reflexivity. }
  unfold getCount.
  destruct Hcases as [[Hc ->]|[Hc ->]].
  - split; [intros _; split; reflexivity|].
    split; [intros Hne; contradiction|].
    split; [reflexivity|]. split; [apply Hsub|reflexivity].
  - split; [intros Hz; contradiction|].
    split.
    + intros _. split; [reflexivity|]. split; [apply Hfresh|reflexivity].
    + split; [reflexivity|]. split; [apply Hsub|reflexivity].
Qed.

(** C5.  When [hasSubmitted[p]] is true, every [addSalary] by [p] reverts
    with [AlreadySubmitted] before anything is written or the library is
    called, and after the failed call the state, and so [getCount()],
    [hasSubmitted] and [encryptedTotal], is as before.  In particular, once
    an [addSalary] by [p] has completed, every later [addSalary] by [p],
    whatever calls come in between, fails with [AlreadySubmitted]. *)
Theorem addSalary_only_once (w : World) (p : N) :
  (hasUserSubmitted w p = true ->
   forall enc proof,
     addSalary p enc proof w = Reverted AlreadySubmitted w /\
     fst (transact (addSalary p enc proof) w) = inl AlreadySubmitted /\
     let w' := snd (transact (addSalary p enc proof) w) in
     w' = w /\
     getCount w' = getCount w /\
     (forall q, hasUserSubmitted w' q = hasUserSubmitted w q) /\
     encryptedTotal (storage w') = encryptedTotal (storage w)) /\
  (forall enc proof w1,
     addSalary p enc proof w = Done tt w1 ->
     forall txs enc' proof',
       transact (addSalary p enc' proof') (run w1 txs)
       = (inl AlreadySubmitted, run w1 txs)).
Proof.
  split.
  - intros Hs enc proof.
    pose proof (addSalary_AlreadySubmitted w p enc proof Hs) as Hr.
    split; [exact Hr|].
    rewrite (transact_Reverted _ _ _ _ Hr). cbn. auto.
  - intros enc proof w1 H txs enc' proof'.
    apply (transact_Reverted _ _ _ (run w1 txs)).
    apply addSalary_AlreadySubmitted. apply hasSubmitted_run.
    apply addSalary_inv in H as (_ & _ & salary & e1 & _ & [[_ ->]|[_ ->]]);
      unfold hasSubmitted_at; cbn; rewrite lookup_insert_eq; reflexivity.
Qed.

(** C8.  With a library whose handles are initialised, in every reachable
    state [count == 0] holds exactly when [encryptedTotal] is uninitialised.
    In every reachable state [count] fits 32 bits, and across any call it
    never decreases and never wraps: a call that changes [count] is an
    [addSalary] and adds exactly 1, and every completed [addSalary] adds
    exactly 1. *)
Theorem count_total_invariant (w : World) :
  handles_initialised ->
  reachable w ->
  (getCount w = 0 <-> encryptedTotal (storage w) = bytes32_zero) /\
  getCount w <= max_uint32 /\
  forall p c,
    let w' := step w (p, c) in
    getCount w <= getCount w' /\
    getCount w' <= max_uint32 /\
    (getCount w' <> getCount w ->
     (exists enc proof, c = CallAddSalary enc proof) /\ getCount w' = getCount w + 1) /\
    (forall enc proof w1,
       c = CallAddSalary enc proof ->
       addSalary p enc proof w = Done tt w1 ->
       w' = w1 /\ getCount w' = getCount w + 1).
Proof.
  intros Hinit Hw. unfold getCount.
  split; [apply total_initialised_iff; assumption|].
  pose proof (count_bounded w Hw) as Hb.
  split; [exact Hb|].
  intros p c. cbn zeta.
  pose proof (count_bounded _ (reachable_step w (p, c) Hw)) as Hb'.
  pose proof (count_step w (p, c)) as Hstep. cbn zeta in Hstep.
  split; [|split; [exact Hb'|split]].
  - destruct Hstep as [->|(-> & _)]; lia.
  - intros Hne. destruct Hstep as [Heq|(Heq & _ & enc & proof & Hc)];
      [contradiction|]. cbn in Hc. split; [eauto|exact Heq].
  - intros enc proof w1 -> Hdone.
    assert (Hw1 : step w (p, CallAddSalary enc proof) = w1).
    { unfold step, transact, execute, tx_bind, tx_ret. cbn [fst snd].
      rewrite Hdone. reflexivity. }
    split; [exact Hw1|]. rewrite Hw1.
    apply addSalary_inv in Hdone as (_ & _ & salary & e1 & _ & [[_ ->]|[_ ->]]);
      reflexivity.
Qed.

(** ** Requesting the average *)

Lemma fhe_calls_step w tx :
  exists more,
    fhe_calls (step w tx) = fhe_calls w ++ more /\
    forall lhs n, Call_div lhs n ∈ more -> n <> 0.
Proof.
  destruct tx as [p c].
  destruct (step_inv w p c) as [c|enc proof w' Hadd|Hc|cleartexts proof average Hz Hn Hk Hd].
  - exists []. split; [rewrite app_nil_r; reflexivity|].
    intros lhs n H. apply not_elem_of_nil in H. contradiction.
  - apply addSalary_inv in Hadd as (_ & _ & salary & e1 & _ & [[_ ->]|[_ ->]]); cbn;
      eexists; (split; [reflexivity|]); intros lhs n H; elem_of_absurd H.
  - eexists. split; [reflexivity|]. intros lhs n H.
    apply elem_of_cons in H as [H|H].
    + injection H as _ ->. assumption.
    + apply not_elem_of_nil in H. contradiction.
  - eexists. split; [reflexivity|]. intros lhs n H.
    apply elem_of_cons in H as [H|H]; [discriminate|].
    apply not_elem_of_nil in H. contradiction.
Qed.

Lemma div_never_by_zero w :
  reachable w -> forall lhs n, Call_div lhs n ∈ fhe_calls w -> n <> 0.
Proof.
  induction 1 as [e|w tx Hw IH]; intros lhs n Hin.
  - cbn in Hin. apply not_elem_of_nil in Hin. contradiction.
  - destruct (fhe_calls_step w tx) as (more & Heq & Hmore).
    rewrite Heq in Hin. apply elem_of_app in Hin as [Hin|Hin].
    + apply (IH lhs n Hin).
    + apply (Hmore lhs n Hin).
Qed.

(** C6.  [requestAverageDecryption] fails with [NoSalariesSubmitted]
    exactly when [count == 0], and then the library has not been called; so
    [FHE.div] is never called with the divisor 0, in this call and in every
    reachable state.  When [count > 0] the call completes: it computes
    [avg = FHE.div(encryptedTotal, count)], grants the contract and the
    requester permission on [avg], marks [avg] publicly decryptable, stores
    it as the requester's pending handle and changes nothing else in
    storage, adds the one event [AverageRequested(requester, handle)], and
    returns that handle, which is the requester's stored pending handle. *)
Theorem requestAverageDecryption_effects (w : World) (requester : N) :
  (fst (transact (requestAverageDecryption requester) w) = inl NoSalariesSubmitted
   <-> getCount w = 0) /\
  (getCount w = 0 ->
   requestAverageDecryption requester w = Reverted NoSalariesSubmitted w) /\
  (getCount w <> 0 ->
   let d := FHE_div (engine w) (encryptedTotal (storage w)) (getCount w) in
   let w' := requestAverage_world w requester (fst d) (snd d) in
   requestAverageDecryption requester w = Done (fst d) w' /\
   (fst d, contract_address) ∈ permissions w' /\
   (fst d, requester) ∈ permissions w' /\
   fst d ∈ public_flag w' /\
   getPendingHandle w' requester = fst d /\
   events w' = events w ++ [AverageRequested requester (fst d)] /\
   fhe_calls w' = fhe_calls w ++ [Call_div (encryptedTotal (storage w)) (getCount w)]) /\
  (forall lhs,
     Call_div lhs 0 ∈ fhe_calls (outcome_world (requestAverageDecryption requester w)) ->
     Call_div lhs 0 ∈ fhe_calls w) /\
  (reachable w -> forall lhs n, Call_div lhs n ∈ fhe_calls w -> n <> 0).
Proof.
  unfold getCount, transact. rewrite requestAverageDecryption_eq.
  destruct (count (storage w) =? 0) eqn:Hc.
  - apply N.eqb_eq in Hc. cbn.
    split; [split; auto|]. split; [reflexivity|].
    split; [intros Hne; contradiction|].
    split; [auto|apply div_never_by_zero].
  - apply N.eqb_neq in Hc. cbn zeta. cbn [fst snd outcome_world].
    split; [split; [discriminate|intros Hz; contradiction]|].
    split; [intros Hz; contradiction|].
    split; [|split; [|apply div_never_by_zero]].
    + intros _. split; [reflexivity|].
      split; [cbn; set_solver|]. split; [cbn; set_solver|].
      split; [cbn; set_solver|].
      split; [|split; reflexivity].
      unfold getPendingHandle, pendingDecryptionHandles_at. cbn.
      rewrite lookup_insert_eq. reflexivity.
    + intros lhs Hin. cbn in Hin.
      apply elem_of_app in Hin as [Hin|Hin]; [assumption|].
      apply elem_of_cons in Hin as [Hin|Hin].
      * injection Hin as _ Hz. symmetry in Hz. contradiction.
      * apply not_elem_of_nil in Hin. contradiction.
Qed.

(** ** Failed calls *)

Lemma execute_reverted w p c e w' :
  execute p c w = Reverted e w' ->
  (e ∈ policy_errors /\ w' = w) \/
  ((e = FHE_InputProofRejected \/ e = FHE_SignaturesRejected \/ e = AbiDecodeFailed) /\
   exists call, w' = log_call call w) \/
  e = Panic 17.
Proof.
  unfold execute, tx_bind, tx_ret, policy_errors.
  destruct c as [enc proof| |cleartexts proof].
  - destruct (addSalary p enc proof w) as [[] w1|e1 w1] eqn:H; [discriminate|].
    intros [= <- <-].
    apply addSalary_reverted in H
      as [(-> & _ & ->)|[(-> & _ & _ & ->)|(-> & _)]].
    + left. split; [set_solver|reflexivity].
    + right. left. split; [auto|eauto].
    + right. right. reflexivity.
  - rewrite requestAverageDecryption_eq.
    destruct (count (storage w) =? 0); [|discriminate].
    intros [= <- <-]. left. split; [set_solver|reflexivity].
  - rewrite verifyDecryption_eq. cbn zeta.
    destruct (getPendingHandle w p =? bytes32_zero).
    { intros [= <- <-]. left. split; [set_solver|reflexivity]. }
    destruct (usedHandles_at _ _).
    { intros [= <- <-]. left. split; [set_solver|reflexivity]. }
    destruct (FHE_checkSignatures _ _ _ _).
    + destruct (abi_decode_uint32 cleartexts); [discriminate|].
      intros [= <- <-]. right. left. split; [auto|eauto].
    + intros [= <- <-]. right. left. split; [auto|eauto].
Qed.

(** C7.  A call of [addSalary], [requestAverageDecryption] or
    [verifyDecryption] that fails, with whatever error, leaves the world
    as it was before the call: no event is added and [getCount],
    [hasUserSubmitted], [getPendingHandle] and [getLastAverage] answer as
    before.  For the four policy errors the abort comes before anything is
    written and before the library is called; for a proof the library
    rejects, only the call into the library had been made. *)
Theorem failed_call_changes_nothing (w : World) (p : N) (c : Call) (e : Error) :
  fst (transact (execute p c) w) = inl e ->
  let w' := snd (transact (execute p c) w) in
  w' = w /\
  events w' = events w /\
  getCount w' = getCount w /\
  (forall q, hasUserSubmitted w' q = hasUserSubmitted w q) /\
  (forall q, getPendingHandle w' q = getPendingHandle w q) /\
  (forall q, getLastAverage w' q = getLastAverage w q) /\
  (e ∈ policy_errors -> execute p c w = Reverted e w) /\
  (e = FHE_InputProofRejected \/ e = FHE_SignaturesRejected ->
   exists call, execute p c w = Reverted e (log_call call w)).
Proof.
  intros H. apply transact_failed in H as [w1 H].
  rewrite (transact_Reverted _ _ _ _ H). cbn.
  repeat (split; [reflexivity|]).
  apply execute_reverted in H as Hcases. unfold policy_errors in *.
  destruct Hcases as [[Hin Hw]|[[He [call Hw]]|He]]; try subst w1.
  - split; [intros _; exact H|].
    intros [Hx|Hx]; subst e; elem_of_absurd Hin.
  - split; [|intros _; eauto].
    intros Hin. destruct He as [Hx|[Hx|Hx]]; subst e; elem_of_absurd Hin.
  - subst e. split; [intros Hin; elem_of_absurd Hin|].
    intros [Hx|Hx]; discriminate.
Qed.

(** ** Replay protection *)

(** C1.  In a reachable state, when the requester's pending handle [h] is in
    the replay guard ([usedHandles[h]] is true), [verifyDecryption] by that
    requester reverts with [HandleAlreadyUsed] whatever cleartext and proof
    are supplied, and it does so before anything is written or the library
    is called.  No call removes a handle from the replay guard; so after
    any further sequence of calls [h] is still in it and every
    [verifyDecryption] whose pending handle is [h] reverts the same way:
    a consumed handle is never accepted again. *)
Theorem replay_guard_is_final (w : World) (requester h : N) :
  reachable w ->
  usedHandles_at (storage w) h = true ->
  getPendingHandle w requester = h ->
  (forall cleartexts proof,
     verifyDecryption requester cleartexts proof w = Reverted HandleAlreadyUsed w) /\
  (forall w0 tx h0,
     usedHandles_at (storage w0) h0 = true ->
     usedHandles_at (storage (step w0 tx)) h0 = true) /\
  (forall txs r cleartexts proof,
     usedHandles_at (storage (run w txs)) h = true /\
     (getPendingHandle (run w txs) r = h ->
      verifyDecryption r cleartexts proof (run w txs)
      = Reverted HandleAlreadyUsed (run w txs))).
Proof.
  intros Hreach Hused Hpend.
  assert (Hgen : forall w1 r cleartexts proof,
             reachable w1 -> usedHandles_at (storage w1) h = true ->
             getPendingHandle w1 r = h ->
             verifyDecryption r cleartexts proof w1 = Reverted HandleAlreadyUsed w1).
  { intros w1 r cleartexts proof Hr Hu Hp.
    rewrite verifyDecryption_eq. cbn zeta. rewrite Hp.
    destruct (h =? bytes32_zero) eqn:Hz.
    - apply N.eqb_eq in Hz. rewrite Hz in Hu.
      rewrite (usedHandles_zero w1 Hr) in Hu. discriminate.
    - rewrite Hu. reflexivity. }
  split; [|split].
  - intros cleartexts proof. apply Hgen; assumption.
  - intros w0 tx h0. apply usedHandles_step.
  - intros txs r cleartexts proof.
    pose proof (usedHandles_run w txs h Hused) as Hu.
    split; [assumption|].
    intros Hp. apply Hgen; [apply reachable_run|..]; assumption.
Qed.

(** ** Verification of a decryption *)

Lemma request_state_PENDING w r :
  request_state w r = PENDING <-> getPendingHandle w r <> bytes32_zero.
Proof.
  unfold request_state.
  destruct (getPendingHandle w r =? bytes32_zero) eqn:Hz.
  - apply N.eqb_eq in Hz. split; [discriminate|]. intros H. contradiction.
  - apply N.eqb_neq in Hz. split; auto.
Qed.

Lemma request_state_NONE w r :
  request_state w r = NONE <-> getPendingHandle w r = bytes32_zero.
Proof.
  unfold request_state.
  destruct (getPendingHandle w r =? bytes32_zero) eqn:Hz.
  - apply N.eqb_eq in Hz. split; auto.
  - apply N.eqb_neq in Hz. split; [discriminate|]. intros H. contradiction.
Qed.

Lemma verifyDecryption_world_views w r h average cleartexts proof :
  let w' := verifyDecryption_world w r h average cleartexts proof in
  getLastAverage w' r = average /\
  usedHandles_at (storage w') h = true /\
  getPendingHandle w' r = bytes32_zero /\
  request_state w' r = NONE /\
  events w' = events w ++ [AverageDecrypted r average].
Proof.
  cbn zeta.
  assert (Hp : getPendingHandle (verifyDecryption_world w r h average cleartexts proof) r
               = bytes32_zero).
  { unfold getPendingHandle, pendingDecryptionHandles_at. cbn.
    rewrite lookup_delete_eq. reflexivity. }
  repeat split.
  - unfold getLastAverage, lastDecryptedAverage_at. cbn.
    rewrite lookup_insert_eq. reflexivity.
  - unfold usedHandles_at. cbn. rewrite lookup_insert_eq. reflexivity.
  - exact Hp.
  - apply request_state_NONE. exact Hp.
Qed.

(** *** The decoder of the cleartext *)

Lemma N_to_be_length len v : length (N_to_be len v) = len.
Proof.
  revert v. induction len as [|len IH]; intros v; cbn [N_to_be].
  - reflexivity.
  - rewrite length_app, IH. cbn. lia.
Qed.

Lemma be_to_N_snoc bs b : be_to_N (bs ++ [b]) = be_to_N bs * 256 + Byte.to_N b.
Proof. unfold be_to_N. rewrite fold_left_app. reflexivity. Qed.

(** The bytes written by [N_to_be] read back as the value, modulo the
    width. *)
Lemma be_to_N_N_to_be len v : be_to_N (N_to_be len v) = v mod 256 ^ N.of_nat len.
Proof.
  revert v. induction len as [|len IH]; intros v.
  - cbn. rewrite N.mod_1_r. reflexivity.
  - cbn [N_to_be]. rewrite be_to_N_snoc, IH.
    assert (Hb : Byte.to_N match Byte.of_N (v mod 256) with
                           | Some b => b
                           | None => Byte.x00
                           end = v mod 256).
    { destruct (Byte.of_N (v mod 256)) as [b|] eqn:Hof.
      - apply Byte.to_of_N. exact Hof.
      - apply Byte.of_N_None_iff in Hof.
        pose proof (N.mod_upper_bound v 256). lia. }
    rewrite Hb, Nat2N.inj_succ, N.pow_succ_r', N.Div0.mod_mul_r. lia.
Qed.

(** [abi.decode] reads back what [abi.encode] wrote, whatever follows the
    first word. *)
Lemma abi_decode_encode v rest :
  v <= max_uint32 -> abi_decode_uint32 (abi_encode_uint32 v ++ rest) = Some v.
Proof.
  intros Hv. unfold abi_decode_uint32, abi_encode_uint32.
  rewrite length_app, N_to_be_length.
  destruct (N.ltb_spec (N.of_nat (32 + length rest)) 32) as [Hlt|_]; [lia|].
  cbn zeta.
  rewrite firstn_app, N_to_be_length, Nat.sub_diag, firstn_O, app_nil_r.
  rewrite firstn_all2 by (rewrite N_to_be_length; lia).
  rewrite be_to_N_N_to_be.
  assert (Hmod : v mod 256 ^ N.of_nat 32 = v).
  { apply N.mod_small. unfold max_uint32 in Hv.
    eapply N.le_lt_trans; [exact Hv|]. reflexivity. }
  rewrite Hmod.
  destruct (N.leb_spec v max_uint32) as [_|Hgt]; [reflexivity|lia].
Qed.

(** What a successful decoding tells: the data has a first word, the
    average is its big-endian value, and it fits 32 bits. *)
Lemma abi_decode_uint32_Some data v :
  abi_decode_uint32 data = Some v ->
  32 <= N.of_nat (length data) /\ v = be_to_N (firstn 32 data) /\ v <= max_uint32.
Proof.
  unfold abi_decode_uint32.
  destruct (N.ltb_spec (N.of_nat (length data)) 32) as [|Hlen]; [discriminate|].
  cbn zeta.
  destruct (N.leb_spec (be_to_N (firstn 32 data)) max_uint32) as [Hle|]; [|discriminate].
  intros [= <-]. auto.
Qed.

(** What [verifyDecryption] leaves as it was. *)
Lemma verifyDecryption_world_frame w r h average cleartexts proof :
  let w' := verifyDecryption_world w r h average cleartexts proof in
  getCount w' = getCount w /\
  encryptedTotal (storage w') = encryptedTotal (storage w) /\
  hasSubmitted (storage w') = hasSubmitted (storage w) /\
  permissions w' = permissions w /\
  public_flag w' = public_flag w /\
  (forall other, other <> r ->
     getLastAverage w' other = getLastAverage w other /\
     getPendingHandle w' other = getPendingHandle w other) /\
  (forall h', h' <> h -> usedHandles_at (storage w') h' = usedHandles_at (storage w) h').
Proof.
  cbn zeta. do 5 (split; [reflexivity|]). split.
  - intros other Hne. split.
    + unfold getLastAverage, lastDecryptedAverage_at. cbn.
      rewrite lookup_insert_ne by auto. reflexivity.
    + unfold getPendingHandle, pendingDecryptionHandles_at. cbn.
      rewrite lookup_delete_ne by auto. reflexivity.
  - intros h' Hne. unfold usedHandles_at. cbn.
    rewrite lookup_insert_ne by auto. reflexivity.
Qed.

(** C2.  Let the requester have a pending handle [h] that is not in the
    replay guard.  A [verifyDecryption] that completes had a proof that
    verifies and leads to exactly the world in which
    [lastDecryptedAverage[requester]] is the average decoded from the
    cleartext bytes, [h] is in the replay guard, the requester's pending
    handle is cleared (PENDING back to NONE) and
    [AverageDecrypted(requester, average)] is the one event the contract
    emits.  The average decoded is the big-endian value of the first 32 bytes of the
    cleartext, which are there and hold a value of at most 2^32 - 1; for
    the cleartext [abi.encode(uint32 v)], followed by anything, it is [v].
    Nothing else changes: the count, the total, the submission flags, the
    permissions, the other requesters' averages and pending handles and the
    other handles of the replay guard are as before.  With a proof that
    verifies and cleartext that decodes, the call does complete.  A
    [verifyDecryption] that fails leaves the requester in PENDING with the
    same pending handle. *)
Theorem verifyDecryption_effects (w : World) (requester : N)
    (cleartexts proof : list Byte.byte) :
  getPendingHandle w requester <> bytes32_zero ->
  usedHandles_at (storage w) (getPendingHandle w requester) = false ->
  request_state w requester = PENDING /\
  (forall w',
     verifyDecryption requester cleartexts proof w = Done tt w' ->
     FHE_checkSignatures (engine w) [getPendingHandle w requester] cleartexts proof = true /\
     exists average,
       abi_decode_uint32 cleartexts = Some average /\
       32 <= N.of_nat (length cleartexts) /\
       average = be_to_N (firstn 32 cleartexts) /\
       average <= max_uint32 /\
       w' = verifyDecryption_world w requester (getPendingHandle w requester)
              average cleartexts proof /\
       getLastAverage w' requester = average /\
       usedHandles_at (storage w') (getPendingHandle w requester) = true /\
       getPendingHandle w' requester = bytes32_zero /\
       request_state w' requester = NONE /\
       events w' = events w ++ [AverageDecrypted requester average] /\
       getCount w' = getCount w /\
       encryptedTotal (storage w') = encryptedTotal (storage w) /\
       hasSubmitted (storage w') = hasSubmitted (storage w) /\
       permissions w' = permissions w /\
       public_flag w' = public_flag w /\
       (forall other, other <> requester ->
          getLastAverage w' other = getLastAverage w other /\
          getPendingHandle w' other = getPendingHandle w other) /\
       (forall h', h' <> getPendingHandle w requester ->
          usedHandles_at (storage w') h' = usedHandles_at (storage w) h')) /\
  (forall average,
     FHE_checkSignatures (engine w) [getPendingHandle w requester] cleartexts proof = true ->
     abi_decode_uint32 cleartexts = Some average ->
     verifyDecryption requester cleartexts proof w
     = Done tt (verifyDecryption_world w requester (getPendingHandle w requester)
                  average cleartexts proof)) /\
  (forall v rest,
     v <= max_uint32 ->
     cleartexts = abi_encode_uint32 v ++ rest ->
     FHE_checkSignatures (engine w) [getPendingHandle w requester] cleartexts proof = true ->
     verifyDecryption requester cleartexts proof w
     = Done tt (verifyDecryption_world w requester (getPendingHandle w requester)
                  v cleartexts proof) /\
     getLastAverage (verifyDecryption_world w requester (getPendingHandle w requester)
                       v cleartexts proof) requester = v) /\
  (forall e,
     fst (transact (verifyDecryption requester cleartexts proof) w) = inl e ->
     let w' := snd (transact (verifyDecryption requester cleartexts proof) w) in
     w' = w /\
     request_state w' requester = PENDING /\
     getPendingHandle w' requester = getPendingHandle w requester).
Proof.
  intros Hpend Hunused.
  apply N.eqb_neq in Hpend as Hz.
  assert (Hdone : forall average,
             FHE_checkSignatures (engine w) [getPendingHandle w requester] cleartexts proof
             = true ->
             abi_decode_uint32 cleartexts = Some average ->
             verifyDecryption requester cleartexts proof w
             = Done tt (verifyDecryption_world w requester (getPendingHandle w requester)
                          average cleartexts proof)).
  { intros average Hs Hd. rewrite verifyDecryption_eq. cbn zeta.
    rewrite Hz, Hunused, Hs, Hd. reflexivity. }
  split; [apply request_state_PENDING; assumption|].
  split; [|split; [exact Hdone|split]].
  - intros w' H. rewrite verifyDecryption_eq in H. cbn zeta in H.
    rewrite Hz, Hunused in H.
    destruct (FHE_checkSignatures _ _ _ _); [|discriminate].
    split; [reflexivity|].
    destruct (abi_decode_uint32 cleartexts) as [average|] eqn:Hd; [|discriminate].
    injection H as <-. exists average.
    destruct (abi_decode_uint32_Some _ _ Hd) as (Hlen & Hval & Hle).
    split; [reflexivity|]. split; [exact Hlen|]. split; [exact Hval|].
    split; [exact Hle|]. split; [reflexivity|].
    pose proof (verifyDecryption_world_views w requester (getPendingHandle w requester)
                  average cleartexts proof) as Hv.
    pose proof (verifyDecryption_world_frame w requester (getPendingHandle w requester)
                  average cleartexts proof) as Hf.
    cbn zeta in Hv, Hf.
    destruct Hv as (H1 & H2 & H3 & H4 & H5).
    repeat (split; [assumption|]). exact Hf.
  - intros v rest Hv -> Hs.
    split.
    + apply Hdone; [exact Hs|]. apply abi_decode_encode. exact Hv.
    + apply verifyDecryption_world_views.
  - intros e H. apply transact_failed in H as [w' H].
    rewrite (transact_Reverted _ _ _ _ H). cbn.
    split; [reflexivity|]. split; [|reflexivity].
    apply request_state_PENDING. assumption.
Qed.

(** The order of the checks in [verifyDecryption]: no pending handle, then
    a used handle, and only then the proof; the first two abort before the
    library is called or anything is written. *)
Lemma verifyDecryption_check_order (w : World) (requester : N)
    (cleartexts proof : list Byte.byte) :
  (getPendingHandle w requester = bytes32_zero ->
   verifyDecryption requester cleartexts proof w = Reverted NoPendingDecryption w) /\
  (getPendingHandle w requester <> bytes32_zero ->
   usedHandles_at (storage w) (getPendingHandle w requester) = true ->
   verifyDecryption requester cleartexts proof w = Reverted HandleAlreadyUsed w) /\
  (getPendingHandle w requester <> bytes32_zero ->
   usedHandles_at (storage w) (getPendingHandle w requester) = false ->
   FHE_checkSignatures (engine w) [getPendingHandle w requester] cleartexts proof = false ->
   verifyDecryption requester cleartexts proof w
   = Reverted FHE_SignaturesRejected
       (log_call (Call_checkSignatures [getPendingHandle w requester] cleartexts proof) w)).
Proof.
  rewrite verifyDecryption_eq. cbn zeta. repeat split.
  - intros ->. reflexivity.
  - intros Hz Hu. apply N.eqb_neq in Hz. rewrite Hz, Hu. reflexivity.
  - intros Hz Hu Hs. apply N.eqb_neq in Hz. rewrite Hz, Hu, Hs. reflexivity.
Qed.

(** The contract declares [InvalidDecryptionProof] and never raises it. *)
Lemma verifyDecryption_error_raised (w : World) (requester : N)
    (cleartexts proof : list Byte.byte) :
  match verifyDecryption requester cleartexts proof w with
  | Reverted InvalidDecryptionProof _ => False
  | _ => True
  end.
Proof.
  rewrite verifyDecryption_eq. cbn zeta.
  destruct (getPendingHandle w requester =? bytes32_zero); [exact I|].
  destruct (usedHandles_at _ _); [exact I|].
  destruct (FHE_checkSignatures _ _ _ _); [|exact I].
  destruct (abi_decode_uint32 cleartexts); exact I.
Qed.


(** ** One pending request per requester *)

Lemma pending_step w p c r :
  let w' := step w (p, c) in
  getPendingHandle w' r = getPendingHandle w r \/
  (p = r /\ c = CallRequestAverageDecryption /\
   requestAverageDecryption r w = Done (getPendingHandle w' r) w') \/
  (p = r /\ getPendingHandle w' r = bytes32_zero).
Proof.
  cbn zeta.
  destruct (step_inv w p c) as [c|enc proof w' Hadd|Hc|cleartexts proof average Hz Hn Hk Hd].
  - left. reflexivity.
  - left. apply addSalary_inv in Hadd as (_ & _ & salary & e1 & _ & [[_ ->]|[_ ->]]);
      reflexivity.
  - destruct (decide (p = r)) as [->|Hne].
    + right. left. split; [reflexivity|]. split; [reflexivity|].
      rewrite requestAverageDecryption_eq.
      apply N.eqb_neq in Hc. rewrite Hc. cbn zeta.
      unfold getPendingHandle, pendingDecryptionHandles_at. cbn.
      rewrite lookup_insert_eq. reflexivity.
    + left. unfold getPendingHandle, pendingDecryptionHandles_at. cbn.
      rewrite lookup_insert_ne by assumption. reflexivity.
  - destruct (decide (p = r)) as [->|Hne].
    + right. right. split; [reflexivity|].
      unfold getPendingHandle, pendingDecryptionHandles_at. cbn.
      rewrite lookup_delete_eq. reflexivity.
    + left. unfold getPendingHandle at 1, pendingDecryptionHandles_at. cbn.
      rewrite lookup_delete_ne by assumption. reflexivity.
Qed.



(** *** The count, the total and the handles of the requests *)





End Properties.

(** * The theorems at concrete inputs *)

(** The scenario of the test suite, on the plaintext coprocessor: Alice,
    Bob and Carol submit 50000, 60000 and 70000; Dave requests the average
    and has 60000 verified.  His last average is 0 before the verification
    and 60000 after it. *)
Example three_salaries_average :
  let w := run (constructor (fhe := PlainEngine) tt)
               [(alice, CallAddSalary 50000 []); (bob, CallAddSalary 60000 []);
                (carol, CallAddSalary 70000 []); (dave, CallRequestAverageDecryption)] in
  let w' := step w (dave, CallVerifyDecryption (abi_encode_uint32 60000) []) in
  getCount w = 3 /\
  getPendingHandle w dave = 60000 /\
  getLastAverage w dave = 0 /\
  getLastAverage w' dave = 60000 /\
  getPendingHandle w' dave = 0 /\
  events w' = [SalarySubmitted alice 1; SalarySubmitted bob 2; SalarySubmitted carol 3;
               AverageRequested dave 60000; AverageDecrypted dave 60000].
Proof. repeat split; vm_compute; reflexivity. Qed.

Lemma replay_guard_is_final_witness :
  usedHandles_at (storage sym_verified) 18 = true /\
  getPendingHandle sym_verified carol = 18 /\
  verifyDecryption carol (abi_encode_uint32 0) [Byte.x12] sym_verified
  = Reverted HandleAlreadyUsed sym_verified.
Proof.
  assert (Hu : usedHandles_at (storage sym_verified) 18 = true) by (vm_compute; reflexivity).
  assert (Hp : getPendingHandle sym_verified carol = 18) by (vm_compute; reflexivity).
  split; [exact Hu|]. split; [exact Hp|].
  apply (replay_guard_is_final sym_verified carol 18); [|exact Hu|exact Hp].
  unfold sym_verified, sym_requested, sym_submitted.
  repeat apply reachable_run. apply reachable_constructor.
Defined.

Lemma verifyDecryption_effects_witness :
  let cleartexts := repeat Byte.x00 30 ++ [Byte.xea; Byte.x60; Byte.xff] in
  let w' := verifyDecryption_world sym_requested bob 18 60000 cleartexts [Byte.x12] in
  getPendingHandle sym_requested bob = 18 /\
  getLastAverage sym_requested bob = 0 /\
  verifyDecryption bob cleartexts [Byte.x12] sym_requested = Done tt w' /\
  getLastAverage w' bob = 60000.
Proof.
  intros cleartexts w'.
  assert (Hp : getPendingHandle sym_requested bob = 18) by (vm_compute; reflexivity).
  split; [exact Hp|].
  split; [vm_compute; reflexivity|].
  assert (Hn : getPendingHandle sym_requested bob <> bytes32_zero)
    by (rewrite Hp; discriminate).
  assert (Hu : usedHandles_at (storage sym_requested) (getPendingHandle sym_requested bob)
               = false) by (vm_compute; reflexivity).
  pose proof (verifyDecryption_effects sym_requested bob cleartexts [Byte.x12]
                Hn Hu) as (_ & _ & _ & Henc & _).
  unfold w'. rewrite <- Hp.
  apply (Henc 60000 [Byte.xff]); [vm_compute; discriminate|reflexivity|].
  vm_compute; reflexivity.
Defined.


Lemma SymEngine_add_yields_new_handle : add_yields_new_handle (fhe := SymEngine).
Proof. intros e a b. cbn. unfold pair_code. nia. Qed.

Lemma SymEngine_handles_initialised : handles_initialised (fhe := SymEngine).
Proof.
  split.
  - intros e c p h proof r e'. cbn.
    destruct (be_to_N proof =? p); [|discriminate].
    intros [= <- _]. unfold bytes32_zero. lia.
  - intros e a b. cbn. unfold bytes32_zero. lia.
Qed.

Lemma addSalary_effects_witness :
  let w' := run sym_submitted [(bob, CallAddSalary 5 [Byte.x02])] in
  addSalary bob 5 [Byte.x02] sym_submitted = Done tt w' /\
  encryptedTotal (storage sym_submitted) = 1 /\
  encryptedTotal (storage w') = 917 /\
  getCount w' = 2 /\
  events w' = events sym_submitted ++ [SalarySubmitted bob 2].
Proof.
  intros w'.
  assert (Hdone : addSalary bob 5 [Byte.x02] sym_submitted = Done tt w')
    by (vm_compute; reflexivity).
  split; [exact Hdone|].
  destruct (addSalary_effects sym_submitted w' bob 5 [Byte.x02]
              SymEngine_add_yields_new_handle Hdone)
    as (newHandle & e1 & Hx & _ & Hsum & Hcount & _ & Hev).
  assert (Hc : getCount sym_submitted = 1) by (vm_compute; reflexivity).
  assert (Ht : encryptedTotal (storage sym_submitted) = 1) by (vm_compute; reflexivity).
  split; [exact Ht|].
  assert (Hne : getCount sym_submitted <> 0) by (rewrite Hc; discriminate).
  destruct (Hsum Hne) as (Htotal & _ & _).
  injection Hx as <- <-.
  split; [rewrite Htotal, Ht; vm_compute; reflexivity|].
  rewrite Hcount, Hc in Hev |- *. split; [reflexivity|exact Hev].
Defined.

Lemma addSalary_only_once_witness :
  hasUserSubmitted sym_submitted alice = true /\
  addSalary alice 7 [Byte.x01] sym_submitted = Reverted AlreadySubmitted sym_submitted /\
  transact (addSalary alice 7 [Byte.x01]) sym_requested
  = (inl AlreadySubmitted, sym_requested).
Proof.
  assert (Hs : hasUserSubmitted sym_submitted alice = true) by (vm_compute; reflexivity).
  split; [exact Hs|]. split.
  - apply (proj1 (addSalary_only_once sym_submitted alice) Hs).
  - apply (proj2 (addSalary_only_once (constructor (fhe := SymEngine) tt) alice)
             0 [Byte.x01] sym_submitted); vm_compute; reflexivity.
Defined.

Lemma count_total_invariant_witness :
  getCount sym_submitted = 1 /\
  (getCount sym_submitted = 0 <-> encryptedTotal (storage sym_submitted) = bytes32_zero) /\
  getCount sym_submitted <= getCount (step sym_submitted (bob, CallAddSalary 5 [Byte.x02])).
Proof.
  assert (Hr : reachable sym_submitted).
  { unfold sym_submitted. apply reachable_run. apply reachable_constructor. }
  destruct (count_total_invariant sym_submitted SymEngine_handles_initialised Hr)
    as (Hiff & _ & Hstep).
  split; [vm_compute; reflexivity|]. split; [exact Hiff|].
  apply (Hstep bob (CallAddSalary 5 [Byte.x02])).
Defined.

Lemma requestAverageDecryption_effects_witness :
  getCount sym_submitted = 1 /\
  requestAverageDecryption bob sym_submitted
  = Done 18 (requestAverage_world sym_submitted bob 18 tt) /\
  getPendingHandle (requestAverage_world sym_submitted bob 18 tt) bob = 18.
Proof.
  assert (Hc : getCount sym_submitted = 1) by (vm_compute; reflexivity).
  split; [exact Hc|].
  assert (Hne : getCount sym_submitted <> 0) by (rewrite Hc; discriminate).
  destruct (requestAverageDecryption_effects sym_submitted bob) as (_ & _ & Hdone & _).
  destruct (Hdone Hne) as (Hd & _ & _ & _ & Hp & _).
  split; [exact Hd|exact Hp].
Defined.

Lemma failed_call_changes_nothing_witness :
  fst (transact (execute alice (CallAddSalary 7 [Byte.x01])) sym_submitted)
  = inl AlreadySubmitted /\
  snd (transact (execute alice (CallAddSalary 7 [Byte.x01])) sym_submitted) = sym_submitted /\
  execute alice (CallAddSalary 7 [Byte.x01]) sym_submitted
  = Reverted AlreadySubmitted sym_submitted.
Proof.
  assert (Hf : fst (transact (execute alice (CallAddSalary 7 [Byte.x01])) sym_submitted)
               = inl AlreadySubmitted) by (vm_compute; reflexivity).
  split; [exact Hf|].
  destruct (failed_call_changes_nothing sym_submitted alice (CallAddSalary 7 [Byte.x01])
              AlreadySubmitted Hf) as (Hw & _ & _ & _ & _ & _ & Hpol & _).
  split; [exact Hw|]. apply Hpol. unfold policy_errors. apply elem_of_cons. left. reflexivity.
Defined.




(** * Where the code departs from the stated behaviour *)


(** C3.  The order of the checks is as stated ([verifyDecryption_check_order]),
    but a proof that does not verify does not fail with
    [InvalidDecryptionProof].  Bob has the pending handle 18, which is not
    in the replay guard, and submits a proof the library rejects: the call
    reverts inside [FHE.checkSignatures], with the library's error.  No
    execution of [verifyDecryption] raises [InvalidDecryptionProof]: the
    contract declares the error, documents it as thrown when the decryption
    proof fails to verify, and has no [revert] that raises it. *)
Theorem rejected_proof_error :
  getPendingHandle sym_requested bob = 18 /\
  usedHandles_at (storage sym_requested) 18 = false /\
  FHE_checkSignatures (FHEVM := SymEngine) tt [18] (abi_encode_uint32 0) [Byte.x00] = false /\
  verifyDecryption bob (abi_encode_uint32 0) [Byte.x00] sym_requested
  = Reverted FHE_SignaturesRejected
      (log_call (Call_checkSignatures [18] (abi_encode_uint32 0) [Byte.x00]) sym_requested) /\
  (forall (fhe : FHEVM) (w : World) (requester : N) (cleartexts proof : list Byte.byte),
     match verifyDecryption requester cleartexts proof w with
     | Reverted InvalidDecryptionProof _ => False
     | _ => True
     end).
Proof.
  split; [vm_compute; reflexivity|].
  split; [vm_compute; reflexivity|].
  split; [vm_compute; reflexivity|].
  split; [vm_compute; reflexivity|].
  intros fhe w requester cleartexts proof. apply verifyDecryption_error_raised.
Qed.

(** * Further properties of the contract *)

Section Ledger.
Context `{fhe : FHEVM}.

(** ** Submissions *)

Lemma submitters_invariant w :
  reachable w ->
  (forall a v, hasSubmitted (storage w) !! a = Some v -> v = true) /\
  count (storage w) = N.of_nat (size (hasSubmitted (storage w))).
Proof.
  induction 1 as [e|w [p c] Hw [IHt IHc]].
  - split.
    + intros a v H. cbn in H. rewrite lookup_empty in H. discriminate.
    + cbn. rewrite map_size_empty. reflexivity.
  - destruct (step_inv w p c) as [c|enc proof w' Hadd|Hc|cleartexts proof average Hz Hn Hk Hd];
      try (split; assumption).
    apply addSalary_inv in Hadd as (Hs & _ & salary & e1 & _ & Hw').
    assert (Hnone : hasSubmitted (storage w) !! p = None).
    { unfold hasSubmitted_at in Hs.
      destruct (hasSubmitted (storage w) !! p) as [v|] eqn:Hl; [|reflexivity].
      rewrite (IHt p v Hl) in Hs. discriminate. }
    destruct Hw' as [[_ ->]|[_ ->]]; cbn; (split;
      [intros a v H; destruct (decide (p = a)) as [->|Hne];
       [rewrite lookup_insert_eq in H; congruence
       |rewrite lookup_insert_ne in H by assumption; eauto]
      |rewrite map_size_insert_None by assumption; rewrite IHc; lia]).
Qed.

(** X1.  In every reachable state [getCount()] is the number of addresses
    for which [hasUserSubmitted] is true. *)
Theorem count_is_number_of_submitters (w : World) :
  reachable w ->
  (forall a, hasUserSubmitted w a = true <-> a ∈ dom (hasSubmitted (storage w))) /\
  getCount w = N.of_nat (size (dom (hasSubmitted (storage w)))).
Proof.
  intros Hw. destruct (submitters_invariant w Hw) as [Ht Hc]. split.
  - intros a. unfold hasUserSubmitted, hasSubmitted_at. rewrite elem_of_dom.
    destruct (hasSubmitted (storage w) !! a) as [v|] eqn:Hl; cbn.
    + rewrite (Ht a v Hl). split; eauto.
    + split; [discriminate|]. intros [v Hv]. discriminate.
  - unfold getCount. rewrite size_dom. exact Hc.
Qed.

Lemma salary_submissions_snoc evs ev :
  salary_submissions (evs ++ [ev])
  = salary_submissions evs ++ match ev with
                              | SalarySubmitted p c => [(p, c)]
                              | _ => []
                              end.
Proof.
  unfold salary_submissions. rewrite omap_app. f_equal. destruct ev; reflexivity.
Qed.

(** X2.  In every reachable state the [SalarySubmitted] events carry the
    counts 1, 2, ..., [getCount()] in this order, no submitter appears in two
    of them, and their submitters are exactly the addresses for which
    [hasUserSubmitted] is true. *)
Theorem submission_events (w : World) :
  reachable w ->
  (salary_submissions (events w)).*2 = N.of_nat <$> seq 1 (N.to_nat (getCount w)) /\
  NoDup (salary_submissions (events w)).*1 /\
  (forall p, p ∈ (salary_submissions (events w)).*1 <-> hasUserSubmitted w p = true).
Proof.
  unfold getCount, hasUserSubmitted.
  induction 1 as [e|w [p c] Hw (IHc & IHn & IHs)].
  - cbn. split; [reflexivity|]. split; [apply NoDup_nil_2|].
    intros p. split; [intros H; apply not_elem_of_nil in H; contradiction|discriminate].
  - destruct (step_inv w p c) as [c|enc proof w' Hadd|Hc|cleartexts proof average Hz Hn Hk Hd].
    + auto.
    + apply addSalary_inv in Hadd as (Hs & _ & salary & e1 & _ & Hw').
      assert (Hnew : p ∉ (salary_submissions (events w)).*1).
      { intros Hin. apply IHs in Hin. rewrite Hin in Hs. discriminate. }
      destruct Hw' as [[_ ->]|[_ ->]]; cbn [events storage count hasSubmitted addSalary_world];
        rewrite salary_submissions_snoc, !fmap_app; cbn [fmap list_fmap fst snd];
        (split; [|split]).
      all: try (replace (N.to_nat (count (storage w) + 1)) with (S (N.to_nat (count (storage w))))
                  by lia;
                rewrite seq_S, fmap_app, IHc; cbn; do 2 f_equal; lia).
      all: try (apply NoDup_app; split; [assumption|]; split;
                [intros x Hx Hx'; apply list_elem_of_singleton in Hx'; subst x; contradiction
                |apply NoDup_singleton]).
      all: intros q; unfold hasSubmitted_at; cbn;
        rewrite elem_of_app, list_elem_of_singleton, IHs;
        unfold hasSubmitted_at;
        (destruct (decide (p = q)) as [->|Hne];
         [rewrite lookup_insert_eq; cbn; split; auto
         |rewrite lookup_insert_ne by assumption;
          split; [intros [H|H]; [exact H|congruence]|auto]]).
    + cbn [events requestAverage_world]. rewrite salary_submissions_snoc, app_nil_r. auto.
    + cbn [events verifyDecryption_world]. rewrite salary_submissions_snoc, app_nil_r. auto.
Qed.

(** ** Decrypted averages *)

Lemma abi_decode_uint32_bound data v :
  abi_decode_uint32 data = Some v -> v <= max_uint32.
Proof.
  unfold abi_decode_uint32.
  destruct (N.of_nat (length data) <? 32); [discriminate|].
  cbn zeta. destruct (be_to_N (firstn 32 data) <=? max_uint32) eqn:Hle; [|discriminate].
  intros [= <-]. apply N.leb_le. assumption.
Qed.

Lemma latest_decrypted_snoc r evs ev :
  latest_decrypted r (evs ++ [ev])
  = match ev with
    | AverageDecrypted q a => if q =? r then a else latest_decrypted r evs
    | _ => latest_decrypted r evs
    end.
Proof. unfold latest_decrypted. rewrite fold_left_app. reflexivity. Qed.

Lemma latest_requested_snoc r evs ev :
  latest_requested r (evs ++ [ev])
  = match ev with
    | AverageRequested q h => if q =? r then h else latest_requested r evs
    | _ => latest_requested r evs
    end.
Proof. unfold latest_requested. rewrite fold_left_app. reflexivity. Qed.

(** X3.  In every reachable state [getLastAverage(user)] is the average of
    the latest [AverageDecrypted] event of that user, and 0 when there is
    none; it always fits 32 bits. *)
Theorem last_average_is_latest_event (w : World) (user : N) :
  reachable w ->
  getLastAverage w user = latest_decrypted user (events w) /\
  getLastAverage w user <= max_uint32.
Proof.
  unfold getLastAverage.
  induction 1 as [e|w [p c] Hw [IHe IHb]].
  - cbn. split; [reflexivity|discriminate].
  - destruct (step_inv w p c) as [c|enc proof w' Hadd|Hc|cleartexts proof average Hz Hn Hk Hd].
    + auto.
    + apply addSalary_inv in Hadd as (_ & _ & salary & e1 & _ & [[_ ->]|[_ ->]]);
        cbn [events storage addSalary_world]; rewrite latest_decrypted_snoc; auto.
    + cbn [events storage requestAverage_world]. rewrite latest_decrypted_snoc. auto.
    + cbn [events storage verifyDecryption_world]. rewrite latest_decrypted_snoc.
      unfold lastDecryptedAverage_at in *. cbn.
      destruct (N.eqb_spec p user) as [->|Hne].
      * rewrite lookup_insert_eq. cbn. split; [reflexivity|].
        apply (abi_decode_uint32_bound cleartexts). assumption.
      * rewrite lookup_insert_ne by assumption. auto.
Qed.

(** X4.  In every reachable state a requester's pending handle, when there
    is one, is the handle of the requester's latest [AverageRequested]
    event. *)
Theorem pending_handle_is_latest_request (w : World) (requester : N) :
  reachable w ->
  getPendingHandle w requester <> bytes32_zero ->
  getPendingHandle w requester = latest_requested requester (events w).
Proof.
  intros Hw.
  assert (Hinv : getPendingHandle w requester = bytes32_zero \/
                 getPendingHandle w requester = latest_requested requester (events w)).
  { unfold getPendingHandle.
    induction Hw as [e|w [p c] Hw IH].
    - left. reflexivity.
    - destruct (step_inv w p c) as [c|enc proof w' Hadd|Hc|cleartexts proof average Hz Hn Hk Hd].
      + assumption.
      + apply addSalary_inv in Hadd as (_ & _ & salary & e1 & _ & [[_ ->]|[_ ->]]);
          cbn [events storage addSalary_world]; rewrite latest_requested_snoc; exact IH.
      + cbn [events storage requestAverage_world]. rewrite latest_requested_snoc.
        unfold pendingDecryptionHandles_at in *. cbn.
        destruct (N.eqb_spec p requester) as [->|Hne].
        * right. rewrite lookup_insert_eq. reflexivity.
        * rewrite lookup_insert_ne by assumption. exact IH.
      + cbn [events storage verifyDecryption_world]. rewrite latest_requested_snoc.
        unfold pendingDecryptionHandles_at in *. cbn.
        destruct (decide (p = requester)) as [->|Hne].
        * left. rewrite lookup_delete_eq. reflexivity.
        * rewrite lookup_delete_ne by assumption. exact IH. }
  intros Hnz. destruct Hinv as [Hz|Heq]; [contradiction|exact Heq].
Qed.

Lemma decrypted_averages_snoc evs ev :
  decrypted_averages (evs ++ [ev])
  = decrypted_averages evs ++ match ev with
                              | AverageDecrypted r a => [(r, a)]
                              | _ => []
                              end.
Proof.
  unfold decrypted_averages. rewrite omap_app. f_equal. destruct ev; reflexivity.
Qed.

Lemma checked_handles_app l1 l2 :
  checked_handles (l1 ++ l2) = checked_handles l1 ++ checked_handles l2.
Proof. unfold checked_handles. apply flat_map_app. Qed.

(** X5.  Exactly-once consumption.  In every reachable state the handles
    that [FHE.checkSignatures] was called with in completed transactions are
    pairwise distinct, they are exactly the handles marked in [usedHandles],
    and there is one [AverageDecrypted] event for each of them: no handle
    ever backs two recorded results. *)
Theorem handles_consumed_once (w : World) :
  reachable w ->
  NoDup (checked_handles (fhe_calls w)) /\
  (forall h, h ∈ checked_handles (fhe_calls w) <-> usedHandles_at (storage w) h = true) /\
  length (decrypted_averages (events w)) = length (checked_handles (fhe_calls w)).
Proof.
  induction 1 as [e|w [p c] Hw (IHn & IHu & IHl)].
  - cbn. split; [apply NoDup_nil_2|]. split; [|reflexivity].
    intros h. split; [intros H; apply not_elem_of_nil in H; contradiction|discriminate].
  - destruct (step_inv w p c) as [c|enc proof w' Hadd|Hc|cleartexts proof average Hz Hn Hk Hd].
    + auto.
    + apply addSalary_inv in Hadd as (_ & _ & salary & e1 & _ & [[_ ->]|[_ ->]]);
        cbn [events storage fhe_calls addSalary_world];
        rewrite decrypted_averages_snoc, checked_handles_app, !app_nil_r; auto.
    + cbn [events storage fhe_calls requestAverage_world].
      rewrite decrypted_averages_snoc, checked_handles_app, !app_nil_r. auto.
    + cbn [events storage fhe_calls verifyDecryption_world].
      rewrite decrypted_averages_snoc, checked_handles_app, !length_app. cbn.
      assert (Hfresh : getPendingHandle w p ∉ checked_handles (fhe_calls w)).
      { intros Hin. apply IHu in Hin. rewrite Hin in Hn. discriminate. }
      split; [|split; [|lia]].
      * apply NoDup_app. split; [assumption|]. split; [|apply NoDup_singleton].
        intros x Hx Hx'. apply list_elem_of_singleton in Hx'. subst x. contradiction.
      * intros h. rewrite elem_of_app, list_elem_of_singleton, IHu.
        unfold usedHandles_at. cbn.
        destruct (decide (getPendingHandle w p = h)) as [->|Hne].
        -- rewrite lookup_insert_eq. cbn. split; auto.
        -- rewrite lookup_insert_ne by assumption.
           split; [intros [H|H]; [exact H|congruence]|auto].
Qed.

(** X6.  In every reachable state the contract holds permission on the
    running total whenever [count > 0], and a requester's pending handle,
    when there is one, has been marked publicly decryptable and both the
    contract and the requester hold permission on it; every handle in
    [usedHandles] has been marked publicly decryptable. *)
Theorem permissions_cover_live_handles (w : World) :
  reachable w ->
  (getCount w <> 0 -> (encryptedTotal (storage w), contract_address) ∈ permissions w) /\
  (forall r, getPendingHandle w r <> bytes32_zero ->
             getPendingHandle w r ∈ public_flag w /\
             (getPendingHandle w r, r) ∈ permissions w /\
             (getPendingHandle w r, contract_address) ∈ permissions w) /\
  (forall h, usedHandles_at (storage w) h = true -> h ∈ public_flag w).
Proof.
  unfold getCount, getPendingHandle.
  induction 1 as [e|w [p c] Hw (IHt & IHp & IHu)].
  - cbn. split; [intros H; contradiction|]. split.
    + intros r H. exfalso. apply H. reflexivity.
    + intros h H. discriminate.
  - destruct (step_inv w p c) as [c|enc proof w' Hadd|Hc|cleartexts proof average Hz Hn Hk Hd].
    + auto.
    + apply addSalary_inv in Hadd as (_ & _ & salary & e1 & _ & [[_ ->]|[_ ->]]);
        cbn [storage permissions public_flag addSalary_world encryptedTotal count
             pendingDecryptionHandles usedHandles];
        (split; [intros _; set_solver|]); (split; [|exact IHu]);
        intros r Hr; destruct (IHp r Hr) as (H1 & H2 & H3);
        (split; [exact H1|]); (split; set_solver).
    + cbn [storage permissions public_flag requestAverage_world encryptedTotal count].
      split; [intros _; specialize (IHt Hc); set_solver|].
      split; [|intros h H; specialize (IHu h H); set_solver].
      intros r. unfold pendingDecryptionHandles_at. cbn.
      destruct (decide (p = r)) as [->|Hne].
      * rewrite lookup_insert_eq. cbn. intros _. set_solver.
      * rewrite lookup_insert_ne by assumption. intros Hr.
        destruct (IHp r Hr) as (H1 & H2 & H3). set_solver.
    + cbn [storage permissions public_flag verifyDecryption_world encryptedTotal count].
      split; [exact IHt|]. split.
      * intros r. unfold pendingDecryptionHandles_at. cbn.
        destruct (decide (p = r)) as [->|Hne].
        -- rewrite lookup_delete_eq. cbn. intros H. exfalso. apply H. reflexivity.
        -- rewrite lookup_delete_ne by assumption. apply IHp.
      * intros h. unfold usedHandles_at. cbn.
        destruct (decide (getPendingHandle w p = h)) as [<-|Hne].
        -- intros _. apply (IHp p Hz).
        -- rewrite lookup_insert_ne by assumption. apply IHu.
Qed.

(** ** Composition of calls *)

Lemma pending_cleared_until_next_request w r txs :
  getPendingHandle w r = bytes32_zero ->
  requested_handles r w txs = [] ->
  getPendingHandle (run w txs) r = bytes32_zero.
Proof.
  revert w. induction txs as [|[p c] txs IH]; intros w Hz Hreq; cbn [run fold_left].
  - exact Hz.
  - cbn [requested_handles fst snd] in Hreq. apply app_eq_nil in Hreq as [Hhead Hrest].
    apply IH; [|exact Hrest].
    destruct (pending_step w p c r) as [Hsame|[(-> & -> & Hdone)|(_ & Hzero)]].
    + rewrite Hsame. exact Hz.
    + rewrite N.eqb_refl, Hdone in Hhead. discriminate.
    + exact Hzero.
Qed.

(** X7.  Once a [verifyDecryption] of a requester has completed, every
    further [verifyDecryption] of that requester fails with
    [NoPendingDecryption], whatever cleartext and proof it brings and
    whatever other calls come in between, until a
    [requestAverageDecryption] of the requester completes. *)
Theorem verified_request_is_cleared (w w' : World) (requester : N)
    (cleartexts proof : list Byte.byte) :
  verifyDecryption requester cleartexts proof w = Done tt w' ->
  forall txs cleartexts' proof',
    requested_handles requester w' txs = [] ->
    verifyDecryption requester cleartexts' proof' (run w' txs)
    = Reverted NoPendingDecryption (run w' txs).
Proof.
  intros Hdone txs cleartexts' proof' Hreq.
  assert (Hz : getPendingHandle w' requester = bytes32_zero).
  { rewrite verifyDecryption_eq in Hdone. cbn zeta in Hdone.
    destruct (getPendingHandle w requester =? bytes32_zero); [discriminate|].
    destruct (usedHandles_at _ _); [discriminate|].
    destruct (FHE_checkSignatures _ _ _ _); [|discriminate].
    destruct (abi_decode_uint32 cleartexts) as [average|]; [|discriminate].
    injection Hdone as <-.
    apply (verifyDecryption_world_views w requester _ average cleartexts proof). }
  apply verifyDecryption_check_order.
  apply pending_cleared_until_next_request; assumption.
Qed.

Lemma count_run_nonzero w txs :
  count (storage w) <> 0 -> count (storage (run w txs)) <> 0.
Proof.
  revert w. induction txs as [|tx txs IH]; intros w Hc; cbn [run fold_left].
  - exact Hc.
  - apply IH. destruct (count_step w tx) as [->|(-> & _)]; lia.
Qed.

(** X8.  Once an [addSalary] has completed, [requestAverageDecryption]
    completes for every caller, submitter or not, in every later state, and
    returns the handle it stores as the caller's pending handle. *)
Theorem average_available_after_submission (w w1 : World) (p enc : N)
    (proof : list Byte.byte) :
  addSalary p enc proof w = Done tt w1 ->
  forall txs requester,
    exists h w2,
      requestAverageDecryption requester (run w1 txs) = Done h w2 /\
      getPendingHandle w2 requester = h.
Proof.
  intros Hdone txs requester.
  assert (Hc : count (storage w1) <> 0).
  { apply addSalary_inv in Hdone as (_ & _ & salary & e1 & _ & [[_ ->]|[_ ->]]); cbn; lia. }
  apply (count_run_nonzero w1 txs) in Hc.
  destruct (requestAverageDecryption_effects (run w1 txs) requester) as (_ & _ & Hok & _).
  destruct (Hok Hc) as (Hreq & _ & _ & _ & Hp & _).
  eauto.
Qed.

(** ** Edge cases of the inputs *)

(** X9.  [addSalary] completes exactly when the sender has not submitted,
    the library accepts the input proof and [count] is below 2^32 - 1.  At
    [count = 2^32 - 1] a submission that passes both checks reverts with the
    arithmetic panic of [count++] and changes nothing: the ledger takes at
    most 2^32 - 1 submissions. *)
Theorem addSalary_completes_iff (w : World) (p enc : N) (proof : list Byte.byte) :
  (completes (addSalary p enc proof w) = true <->
   hasUserSubmitted w p = false /\
   FHE_fromExternal (engine w) contract_address p enc proof <> None /\
   getCount w < max_uint32) /\
  (hasUserSubmitted w p = false ->
   FHE_fromExternal (engine w) contract_address p enc proof <> None ->
   max_uint32 <= getCount w ->
   transact (addSalary p enc proof) w = (inl (Panic 17), w)).
Proof.
  unfold hasUserSubmitted, getCount.
  destruct (addSalary p enc proof w) as [[] w1|e w1] eqn:H.
  - apply addSalary_inv in H as Hinv. destruct Hinv as (Hs & Hlt & salary & e1 & Hx & _).
    split.
    + cbn. split; [intros _|reflexivity].
      split; [exact Hs|]. split; [rewrite Hx; discriminate|exact Hlt].
    + intros _ _ Hge. lia.
  - apply addSalary_reverted in H as Hcases. split.
    + cbn. split; [discriminate|]. intros (Hs & Hx & Hlt). exfalso.
      destruct Hcases as [(_ & Hs' & _)|[(_ & _ & Hx' & _)|(_ & _ & Hge)]].
      * rewrite Hs in Hs'. discriminate.
      * contradiction.
      * lia.
    + intros Hs Hx _.
      destruct Hcases as [(_ & Hs' & _)|[(_ & _ & Hx' & _)|(-> & _ & _)]].
      * rewrite Hs in Hs'. discriminate.
      * contradiction.
      * apply (transact_Reverted _ _ _ _ H).
Qed.

(** X10.  [abi.decode] takes the first 32-byte word and ignores what
    follows.  A cleartext shorter than 32 bytes, or whose first word exceeds
    2^32 - 1, never gets a result recorded: [verifyDecryption] fails and
    leaves the state as it was, and, when the request is pending, unused and
    the proof verifies, the failure is the revert of the decoder, after the
    library accepted the proof. *)
Theorem malformed_cleartext_rejected (w : World) (requester : N)
    (cleartexts proof : list Byte.byte) :
  (forall v, abi_decode_uint32 cleartexts = Some v <->
             (32 <= length cleartexts)%nat /\
             be_to_N (firstn 32 cleartexts) = v /\ v <= max_uint32) /\
  (abi_decode_uint32 cleartexts = None ->
   completes (verifyDecryption requester cleartexts proof w) = false /\
   snd (transact (verifyDecryption requester cleartexts proof) w) = w /\
   (getPendingHandle w requester <> bytes32_zero ->
    usedHandles_at (storage w) (getPendingHandle w requester) = false ->
    FHE_checkSignatures (engine w) [getPendingHandle w requester] cleartexts proof = true ->
    verifyDecryption requester cleartexts proof w
    = Reverted AbiDecodeFailed
        (log_call (Call_checkSignatures [getPendingHandle w requester] cleartexts proof) w))).
Proof.
  split.
  - intros v. unfold abi_decode_uint32.
    destruct (N.ltb_spec (N.of_nat (length cleartexts)) 32) as [Hlt|Hge].
    + split; [discriminate|]. intros (Hlen & _). lia.
    + cbn zeta. destruct (N.leb_spec (be_to_N (firstn 32 cleartexts)) max_uint32) as [Hle|Hgt].
      * split.
        -- intros [= <-]. split; [lia|]. split; [reflexivity|exact Hle].
        -- intros (_ & <- & _). reflexivity.
      * split; [discriminate|]. intros (_ & <- & Hle). lia.
  - intros Hnone. unfold transact.
    rewrite verifyDecryption_eq. cbn zeta. rewrite Hnone.
    split; [|split].
    + destruct (getPendingHandle w requester =? bytes32_zero); [reflexivity|].
      destruct (usedHandles_at _ _); [reflexivity|].
      destruct (FHE_checkSignatures _ _ _ _); reflexivity.
    + destruct (getPendingHandle w requester =? bytes32_zero); [reflexivity|].
      destruct (usedHandles_at _ _); [reflexivity|].
      destruct (FHE_checkSignatures _ _ _ _); reflexivity.
    + intros Hz Hu Hs. apply N.eqb_neq in Hz. rewrite Hz, Hu, Hs. reflexivity.
Qed.

(** ** What the average is *)

Lemma step_addSalary_Done w p enc proof w' :
  addSalary p enc proof w = Done tt w' -> step w (p, CallAddSalary enc proof) = w'.
Proof.
  intros H. unfold step, transact, execute, tx_bind, tx_ret. cbn [fst snd].
  rewrite H. reflexivity.
Qed.

Lemma step_addSalary_Reverted w p enc proof e w' :
  addSalary p enc proof w = Reverted e w' -> step w (p, CallAddSalary enc proof) = w.
Proof.
  intros H. unfold step, transact, execute, tx_bind, tx_ret. cbn [fst snd].
  rewrite H. reflexivity.
Qed.

Lemma step_keeps_total w p c :
  (forall enc proof, c <> CallAddSalary enc proof) ->
  count (storage (step w (p, c))) = count (storage w) /\
  encryptedTotal (storage (step w (p, c))) = encryptedTotal (storage w).
Proof.
  intros Hc.
  destruct (step_inv w p c) as [c|enc proof w' Hadd|Hnz|cleartexts proof average Hz Hn Hk Hd].
  - split; reflexivity.
  - exfalso. apply (Hc enc proof). reflexivity.
  - split; reflexivity.
  - split; reflexivity.
Qed.

Lemma salary_handles_app w txs1 txs2 :
  salary_handles w (txs1 ++ txs2)
  = salary_handles w txs1 ++ salary_handles (run w txs1) txs2.
Proof.
  revert w. induction txs1 as [|tx txs1 IH]; intros w.
  - reflexivity.
  - cbn [app salary_handles run fold_left]. rewrite IH, app_assoc. reflexivity.
Qed.

Lemma N_sum_snoc l x : N_sum (l ++ [x]) = N_sum l + x.
Proof.
  unfold N_sum. induction l as [|y l IH]; cbn.
  - lia.
  - rewrite IH. lia.
Qed.

(** The count is the number of submitted salaries and, with a homomorphic
    library, the running total decrypts to their sum modulo 2^32. *)
Lemma total_is_sum plain e txs :
  homomorphic plain ->
  let w := run (constructor e) txs in
  let salaries := salary_handles (constructor e) txs in
  count (storage w) = N.of_nat (length salaries) /\
  (count (storage w) <> 0 ->
   plain (encryptedTotal (storage w)) = N_sum (plain <$> salaries) mod (max_uint32 + 1)).
Proof.
  intros (Hb & Hadd & _). cbn zeta.
  induction txs as [|[p c] txs [IHc IHt]] using rev_ind.
  - cbn. split; [reflexivity|]. intros H. contradiction.
  - rewrite run_app, salary_handles_app. cbn [run fold_left].
    set (w := run (constructor e) txs) in *.
    cbn [salary_handles fst snd]. rewrite app_nil_r.
    destruct c as [enc proof| |cleartexts proof].
    + destruct (addSalary p enc proof w) as [[] w'|err w'] eqn:H.
      * rewrite (step_addSalary_Done _ _ _ _ _ H). cbn [completes].
        apply addSalary_inv in H as (_ & _ & salary & e1 & Hx & Hw').
        rewrite Hx. cbv iota beta.
        rewrite length_app, fmap_app.
        change (plain <$> [salary]) with [plain salary].
        rewrite N_sum_snoc. cbn [length].
        destruct Hw' as [[Hz ->]|[Hnz ->]]; cbn [storage count encryptedTotal addSalary_world].
        -- split; [lia|]. intros _.
           assert (Hnil : salary_handles (constructor e) txs = []).
           { destruct (salary_handles (constructor e) txs); [reflexivity|].
             cbn in IHc. lia. }
           rewrite Hnil. cbn. rewrite N.mod_small; [reflexivity|].
           specialize (Hb salary). lia.
        -- split; [lia|]. intros _.
           rewrite Hadd, (IHt Hnz). apply N.Div0.add_mod_idemp_l.
      * rewrite (step_addSalary_Reverted _ _ _ _ _ _ H). cbn [completes].
        rewrite app_nil_r. split; [exact IHc|exact IHt].
    + rewrite app_nil_r.
      destruct (step_keeps_total w p CallRequestAverageDecryption) as [-> ->];
        [discriminate|]. split; [exact IHc|exact IHt].
    + rewrite app_nil_r.
      destruct (step_keeps_total w p (CallVerifyDecryption cleartexts proof)) as [-> ->];
        [discriminate|]. split; [exact IHc|exact IHt].
Qed.

(** X11.  With a library that is homomorphic for a decryption map, after any
    sequence of calls from deployment [getCount()] is the number of
    completed submissions, and the handle that
    [requestAverageDecryption] returns decrypts to the sum of the submitted
    salaries, taken modulo 2^32, divided by the count (rounded down). *)
Theorem average_is_sum_over_count (plain : N -> N) (e : coprocessor)
    (txs : list (N * Call)) (requester h : N) (w' : World) :
  homomorphic plain ->
  requestAverageDecryption requester (run (constructor e) txs) = Done h w' ->
  let salaries := salary_handles (constructor e) txs in
  getCount (run (constructor e) txs) = N.of_nat (length salaries) /\
  salaries <> [] /\
  plain h = (N_sum (plain <$> salaries) mod (max_uint32 + 1)) / N.of_nat (length salaries).
Proof.
  intros Hhom Hreq. cbn zeta.
  destruct (total_is_sum plain e txs Hhom) as [Hc Ht]. cbn zeta in Hc, Ht.
  destruct Hhom as (_ & _ & Hdiv).
  rewrite requestAverageDecryption_eq in Hreq.
  destruct (count (storage (run (constructor e) txs)) =? 0) eqn:Hz; [discriminate|].
  apply N.eqb_neq in Hz. cbn zeta in Hreq. injection Hreq as <- _.
  split; [exact Hc|]. split.
  - intros Hnil. rewrite Hnil in Hc. cbn in Hc. contradiction.
  - rewrite (Hdiv _ _ _ Hz), (Ht Hz), Hc. reflexivity.
Qed.

(** ** What a call leaves alone *)

(** X12.  A call never changes another address's pending handle, last
    average or submission flag.  [addSalary] changes no pending handle, no
    last average and no entry of [usedHandles]; [requestAverageDecryption]
    and [verifyDecryption] change neither [encryptedTotal] nor [count] nor
    any submission flag, and [requestAverageDecryption] changes no last
    average and no entry of [usedHandles]. *)
Theorem calls_leave_other_slots (w : World) (p : N) (c : Call) :
  let w' := step w (p, c) in
  (forall q, q <> p ->
     getPendingHandle w' q = getPendingHandle w q /\
     getLastAverage w' q = getLastAverage w q /\
     hasUserSubmitted w' q = hasUserSubmitted w q) /\
  match c with
  | CallAddSalary _ _ =>
      (forall q, getPendingHandle w' q = getPendingHandle w q) /\
      (forall q, getLastAverage w' q = getLastAverage w q) /\
      (forall h, usedHandles_at (storage w') h = usedHandles_at (storage w) h)
  | CallRequestAverageDecryption =>
      encryptedTotal (storage w') = encryptedTotal (storage w) /\
      getCount w' = getCount w /\
      (forall q, hasUserSubmitted w' q = hasUserSubmitted w q) /\
      (forall q, getLastAverage w' q = getLastAverage w q) /\
      (forall h, usedHandles_at (storage w') h = usedHandles_at (storage w) h)
  | CallVerifyDecryption _ _ =>
      encryptedTotal (storage w') = encryptedTotal (storage w) /\
      getCount w' = getCount w /\
      (forall q, hasUserSubmitted w' q = hasUserSubmitted w q)
  end.
Proof.
  cbn zeta.
  unfold getPendingHandle, getLastAverage, hasUserSubmitted, getCount,
    pendingDecryptionHandles_at, lastDecryptedAverage_at, hasSubmitted_at.
  destruct (step_inv w p c) as [c|enc proof w' Hadd|Hc|cleartexts proof average Hz Hn Hk Hd].
  - split; [auto|]. destruct c; auto.
  - apply addSalary_inv in Hadd as (_ & _ & salary & e1 & _ & [[_ ->]|[_ ->]]); cbn;
      (split; [intros q Hq; rewrite lookup_insert_ne by congruence; auto|auto]).
  - cbn. split; [|auto 6].
    intros q Hq. rewrite lookup_insert_ne by congruence. auto.
  - cbn. split; [|auto].
    intros q Hq. rewrite lookup_delete_ne, lookup_insert_ne by congruence. auto.
Qed.

End Ledger.

Lemma count_is_number_of_submitters_witness :
  getCount sym_requested = 1 /\ hasUserSubmitted sym_requested alice = true /\
  alice ∈ dom (hasSubmitted (storage sym_requested)).
Proof.
  assert (Hr : reachable sym_requested).
  { unfold sym_requested, sym_submitted. repeat apply reachable_run.
    apply reachable_constructor. }
  destruct (count_is_number_of_submitters sym_requested Hr) as [Hdom _].
  assert (Hs : hasUserSubmitted sym_requested alice = true) by (vm_compute; reflexivity).
  split; [vm_compute; reflexivity|]. split; [exact Hs|]. apply Hdom. exact Hs.
Defined.

Lemma submission_events_witness :
  salary_submissions (events sym_requested) = [(alice, 1)] /\
  (salary_submissions (events sym_requested)).*2
  = N.of_nat <$> seq 1 (N.to_nat (getCount sym_requested)).
Proof.
  assert (Hr : reachable sym_requested).
  { unfold sym_requested, sym_submitted. repeat apply reachable_run.
    apply reachable_constructor. }
  split; [vm_compute; reflexivity|].
  apply (submission_events sym_requested Hr).
Defined.

Lemma last_average_is_latest_event_witness :
  getLastAverage sym_verified_60000 bob = 60000 /\
  getLastAverage sym_verified_60000 bob
  = latest_decrypted bob (events sym_verified_60000).
Proof.
  assert (Hr : reachable sym_verified_60000).
  { unfold sym_verified_60000, sym_requested, sym_submitted. repeat apply reachable_run.
    apply reachable_constructor. }
  split; [vm_compute; reflexivity|].
  apply (last_average_is_latest_event sym_verified_60000 bob Hr).
Defined.

Lemma pending_handle_is_latest_request_witness :
  getPendingHandle sym_requested carol = 18 /\
  getPendingHandle sym_requested carol = latest_requested carol (events sym_requested).
Proof.
  assert (Hr : reachable sym_requested).
  { unfold sym_requested, sym_submitted. repeat apply reachable_run.
    apply reachable_constructor. }
  assert (Hp : getPendingHandle sym_requested carol = 18) by (vm_compute; reflexivity).
  split; [exact Hp|].
  apply (pending_handle_is_latest_request sym_requested carol Hr).
  rewrite Hp. discriminate.
Defined.

Lemma permissions_cover_live_handles_witness :
  getPendingHandle sym_requested carol = 18 /\
  18 ∈ public_flag sym_requested /\
  (18, carol) ∈ permissions sym_requested.
Proof.
  assert (Hr : reachable sym_requested).
  { unfold sym_requested, sym_submitted. repeat apply reachable_run.
    apply reachable_constructor. }
  assert (Hp : getPendingHandle sym_requested carol = 18) by (vm_compute; reflexivity).
  destruct (permissions_cover_live_handles sym_requested Hr) as (_ & Hpend & _).
  assert (Hn : getPendingHandle sym_requested carol <> bytes32_zero)
    by (rewrite Hp; discriminate).
  destruct (Hpend carol Hn) as (H1 & H2 & _).
  rewrite Hp in H1, H2. split; [exact Hp|]. split; assumption.
Defined.

Lemma handles_consumed_once_witness :
  checked_handles (fhe_calls sym_verified) = [18] /\
  usedHandles_at (storage sym_verified) 18 = true /\
  length (decrypted_averages (events sym_verified)) = 1%nat.
Proof.
  assert (Hr : reachable sym_verified).
  { unfold sym_verified, sym_requested, sym_submitted. repeat apply reachable_run.
    apply reachable_constructor. }
  assert (Hc : checked_handles (fhe_calls sym_verified) = [18]) by (vm_compute; reflexivity).
  destruct (handles_consumed_once sym_verified Hr) as (_ & Hu & Hl).
  split; [exact Hc|]. split.
  - apply Hu. rewrite Hc. apply list_elem_of_singleton. reflexivity.
  - rewrite Hl, Hc. reflexivity.
Defined.

Lemma verified_request_is_cleared_witness :
  verifyDecryption bob (abi_encode_uint32 60000) [Byte.x12] sym_requested
  = Done tt sym_verified_60000 /\
  verifyDecryption bob (abi_encode_uint32 60000) [Byte.x12]
    (run sym_verified_60000 [(carol, CallAddSalary 5 [Byte.x03])])
  = Reverted NoPendingDecryption
      (run sym_verified_60000 [(carol, CallAddSalary 5 [Byte.x03])]).
Proof.
  assert (Hd : verifyDecryption bob (abi_encode_uint32 60000) [Byte.x12] sym_requested
               = Done tt sym_verified_60000) by (vm_compute; reflexivity).
  split; [exact Hd|].
  apply (verified_request_is_cleared sym_requested sym_verified_60000 bob
           (abi_encode_uint32 60000) [Byte.x12] Hd).
  vm_compute; reflexivity.
Defined.

Lemma average_available_after_submission_witness :
  addSalary alice 0 [Byte.x01] (constructor (fhe := SymEngine) tt) = Done tt sym_submitted /\
  exists h w2,
    requestAverageDecryption dave
      (run sym_submitted [(bob, CallRequestAverageDecryption)]) = Done h w2 /\
    getPendingHandle w2 dave = h.
Proof.
  assert (Hd : addSalary alice 0 [Byte.x01] (constructor (fhe := SymEngine) tt)
               = Done tt sym_submitted) by (vm_compute; reflexivity).
  split; [exact Hd|].
  apply (average_available_after_submission _ _ alice 0 [Byte.x01] Hd).
Defined.

Lemma addSalary_completes_iff_witness :
  completes (addSalary bob 5 [Byte.x02] sym_submitted) = true /\
  hasUserSubmitted sym_submitted bob = false /\
  getCount sym_submitted < max_uint32.
Proof.
  assert (Hc : completes (addSalary bob 5 [Byte.x02] sym_submitted) = true)
    by (vm_compute; reflexivity).
  split; [exact Hc|].
  destruct (proj1 (proj1 (addSalary_completes_iff sym_submitted bob 5 [Byte.x02])) Hc)
    as (Hs & _ & Hlt).
  split; assumption.
Defined.

Lemma malformed_cleartext_rejected_witness :
  abi_decode_uint32 [Byte.x00; Byte.x2a] = None /\
  verifyDecryption bob [Byte.x00; Byte.x2a] [Byte.x12] sym_requested
  = Reverted AbiDecodeFailed
      (log_call (Call_checkSignatures [18] [Byte.x00; Byte.x2a] [Byte.x12]) sym_requested).
Proof.
  assert (Hn : abi_decode_uint32 [Byte.x00; Byte.x2a] = None) by reflexivity.
  split; [exact Hn|].
  assert (Hp : getPendingHandle sym_requested bob = 18) by (vm_compute; reflexivity).
  destruct (proj2 (malformed_cleartext_rejected sym_requested bob
                     [Byte.x00; Byte.x2a] [Byte.x12]) Hn) as (_ & _ & Hrev).
  rewrite Hp in Hrev. apply Hrev; [discriminate|vm_compute; reflexivity..].
Defined.

Lemma WrapEngine_homomorphic : homomorphic (fhe := WrapEngine) wrap_plain.
Proof.
  assert (Hlt : forall a, a mod 4294967296 < 4294967296)
    by (intros a; apply N.mod_upper_bound; discriminate).
  unfold homomorphic, wrap_plain. cbn.
  change (max_uint32 + 1) with 4294967296. unfold max_uint32.
  split; [|split].
  - intros h. apply N.lt_succ_r. exact (Hlt h).
  - intros _ a b. rewrite N.Div0.mod_mod. apply N.Div0.add_mod.
  - intros _ a n Hn. apply N.mod_small.
    apply N.le_lt_trans with (m := a mod 4294967296); [|apply Hlt].
    apply N.Div0.div_le_upper_bound. apply N.le_mul_l. exact Hn.
Qed.

Lemma average_is_sum_over_count_witness :
  let txs := [(alice, CallAddSalary 4294967295 []); (bob, CallAddSalary 7 []);
              (carol, CallAddSalary 70000 [])] in
  let w := run (constructor (fhe := WrapEngine) tt) txs in
  requestAverageDecryption dave w = Done 23335 (requestAverage_world w dave 23335 tt) /\
  salary_handles (constructor (fhe := WrapEngine) tt) txs = [4294967295; 7; 70000] /\
  wrap_plain 23335 = ((4294967295 + 7 + 70000) mod 4294967296) / 3.
Proof.
  intros txs w.
  assert (Hreq : requestAverageDecryption dave w
                 = Done 23335 (requestAverage_world w dave 23335 tt))
    by (rewrite requestAverageDecryption_eq; reflexivity).
  assert (Hs : salary_handles (constructor (fhe := WrapEngine) tt) txs
               = [4294967295; 7; 70000]) by (vm_compute; reflexivity).
  split; [exact Hreq|]. split; [exact Hs|].
  destruct (average_is_sum_over_count (fhe := WrapEngine) wrap_plain tt txs dave 23335 _
              WrapEngine_homomorphic Hreq) as (_ & _ & Havg).
  rewrite Havg, Hs. reflexivity.
Defined.

Lemma calls_leave_other_slots_witness :
  let w' := step sym_requested
              (bob, CallVerifyDecryption (abi_encode_uint32 60000) [Byte.x12]) in
  getPendingHandle sym_requested bob = 18 /\
  getPendingHandle w' bob = 0 /\
  getPendingHandle w' carol = getPendingHandle sym_requested carol /\
  getCount w' = getCount sym_requested.
Proof.
  intros w'.
  destruct (calls_leave_other_slots sym_requested bob
              (CallVerifyDecryption (abi_encode_uint32 60000) [Byte.x12]))
    as (Hother & _ & Hcount & _).
  split; [vm_compute; reflexivity|]. split; [vm_compute; reflexivity|].
  split; [|exact Hcount].
  apply (Hother carol). discriminate.
Defined.

(** * Properties of the example contracts *)

Module PublicDecryptFacts.
Import PublicDecrypt.

Section Facts.
Context `{fhe : FHEVM} `{sc : !FHEVMScalar}.

Ltac op_unfold :=
  unfold setValue, requestDecryption, verifyDecryption, PublicDecrypt.constructor, commit,
    op_bind, op_ret, op_require, op_load, op_store, op_emit, op_fromExternal, op_asEuint32,
    op_checkSignatures, op_allowThis, op_allow, op_makePubliclyDecryptable, op_decode,
    with_env_engine in *.

Lemma pd_verifyDecryption_eq sender cleartexts proof (env : Env Storage Event) :
  verifyDecryption sender cleartexts proof env =
  let s := env_storage env in
  if pendingHandle s =? bytes32_zero then Fail (Require_failed "No pending decryption")
  else if FHE_checkSignatures (env_engine env) [pendingHandle s] cleartexts proof then
         match abi_decode_uint32 cleartexts with
         | Some v =>
             Ok tt (mkEnv (mkStorage (encryptedValue s) v bytes32_zero true)
                          (env_permissions env) (env_public env) (env_engine env)
                          (env_events env ++ [DecryptionVerified v]))
         | None => Fail Decode_failed
         end
       else Fail Signatures_rejected.
Proof.
  op_unfold. cbn.
  destruct (pendingHandle (env_storage env) =? bytes32_zero); [reflexivity|]. cbn.
  destruct (FHE_checkSignatures _ _ _ _); [|reflexivity]. cbn.
  destruct (abi_decode_uint32 cleartexts); reflexivity.
Qed.

Lemma pd_requestDecryption_eq sender (env : Env Storage Event) :
  requestDecryption sender env =
  let s := env_storage env in
  Ok (encryptedValue s)
     (mkEnv (mkStorage (encryptedValue s) (decryptedResult s) (encryptedValue s) (isDecrypted s))
            ({[ (encryptedValue s, sender) ]} ∪
             ({[ (encryptedValue s, contract_address) ]} ∪ env_permissions env))
            ({[ encryptedValue s ]} ∪ env_public env) (env_engine env)
            (env_events env ++ [DecryptionRequested (encryptedValue s)])).
Proof. reflexivity. Qed.

Lemma pd_setValue_eq sender newValue inputProof (env : Env Storage Event) :
  setValue sender newValue inputProof env =
  let s := env_storage env in
  match FHE_fromExternal (env_engine env) contract_address sender newValue inputProof with
  | Some (v, e') =>
      Ok tt (mkEnv (mkStorage v (decryptedResult s) bytes32_zero false)
                   ({[ (v, sender) ]} ∪ ({[ (v, contract_address) ]} ∪ env_permissions env))
                   (env_public env) e' (env_events env ++ [ValueSet v]))
  | None => Fail Input_proof_rejected
  end.
Proof.
  op_unfold. cbn.
  destruct (FHE_fromExternal _ _ _ _ _) as [[v e']|]; reflexivity.
Qed.

Lemma pd_step_inv env tx : step_kind env (step env tx).
Proof.
  destruct tx as [p [newValue inputProof| |cleartexts proof]]; unfold step, commit; cbn [fst snd].
  - rewrite pd_setValue_eq. cbn zeta.
    destruct (FHE_fromExternal _ _ _ _ _) as [[v e']|]; [apply kind_setValue|apply kind_reverted].
  - rewrite pd_requestDecryption_eq. apply kind_requestDecryption.
  - rewrite pd_verifyDecryption_eq. cbn zeta.
    destruct (pendingHandle (env_storage env) =? bytes32_zero) eqn:Hz; [apply kind_reverted|].
    destruct (FHE_checkSignatures _ _ _ _); [|apply kind_reverted].
    destruct (abi_decode_uint32 cleartexts); [|apply kind_reverted].
    apply kind_verifyDecryption. apply N.eqb_neq. assumption.
Qed.

(** X13.  In every reachable state of [PublicDecrypt] a pending handle, when
    there is one, is the handle of the current encrypted value and has been
    marked publicly decryptable; the contract always holds permission on
    the current encrypted value. *)
Theorem pending_is_current_value (env : Env Storage Event) :
  reachable env ->
  (pendingHandle (env_storage env) = bytes32_zero \/
   pendingHandle (env_storage env) = encryptedValue (env_storage env) /\
   pendingHandle (env_storage env) ∈ env_public env) /\
  (encryptedValue (env_storage env), contract_address) ∈ env_permissions env.
Proof.
  induction 1 as [e|env tx Hr [IHp IHc]].
  - unfold PublicDecrypt.constructor, commit, op_bind, op_asEuint32, op_store, op_load,
      op_allowThis, op_allow, with_env_engine. cbn.
    destruct (FHE_asEuint32 e 42) as [h e']. cbn. split; [left; reflexivity|set_solver].
  - destruct (pd_step_inv env tx) as [|sender v e'|sender|v Hp]; cbn.
    + split; assumption.
    + split; [left; reflexivity|set_solver].
    + split; [right; split; [reflexivity|set_solver]|set_solver].
    + split; [left; reflexivity|assumption].
Qed.

(** X14.  The result flag of [PublicDecrypt] follows the events: in every
    reachable state [isDecrypted] is true exactly when the latest of the
    [ValueSet] and [DecryptionVerified] events is a [DecryptionVerified],
    and then [decryptedResult] is the result that event carries: a result
    marked decrypted always belongs to the current value. *)
Theorem isDecrypted_follows_events (env : Env Storage Event) :
  reachable env ->
  (isDecrypted (env_storage env) = true <-> is_Some (verified_result (env_events env))) /\
  (forall v, verified_result (env_events env) = Some v ->
             decryptedResult (env_storage env) = v).
Proof.
  induction 1 as [e|env tx Hr [IHd IHv]].
  - unfold PublicDecrypt.constructor, commit, op_bind, op_asEuint32, op_store, op_load,
      op_allowThis, op_allow, with_env_engine. cbn.
    destruct (FHE_asEuint32 e 42) as [h e']. cbn.
    split; [split; [discriminate|intros [v Hv]; discriminate]|discriminate].
  - destruct (pd_step_inv env tx) as [|sender v e'|sender|v Hp]; cbn [env_storage env_events
      isDecrypted decryptedResult].
    + split; assumption.
    + unfold verified_result. rewrite fold_left_app. cbn.
      split; [split; [discriminate|intros [x Hx]; discriminate]|discriminate].
    + unfold verified_result in *. rewrite fold_left_app. cbn. split; assumption.
    + unfold verified_result. rewrite fold_left_app. cbn.
      split; [split; eauto|]. intros x [= <-]. reflexivity.
Qed.

Lemma pd_pending_cleared_run (env : Env Storage Event) txs :
  pendingHandle (env_storage env) = bytes32_zero ->
  Forall (fun tx => snd tx <> CallRequestDecryption) txs ->
  pendingHandle (env_storage (run env txs)) = bytes32_zero.
Proof.
  revert env. induction txs as [|[p c] txs IH]; intros env Hz Hall; cbn [run fold_left].
  - exact Hz.
  - apply Forall_cons in Hall as [Hc Hall]. cbn in Hc.
    apply IH; [|exact Hall].
    unfold step. cbn [fst snd].
    destruct c as [newValue inputProof| |cleartexts proof].
    + unfold commit. rewrite pd_setValue_eq. cbn zeta.
      destruct (FHE_fromExternal _ _ _ _ _) as [[v e']|]; [reflexivity|exact Hz].
    + contradiction.
    + unfold commit. rewrite pd_verifyDecryption_eq. cbn zeta. rewrite Hz. cbn. exact Hz.
Qed.

(** X15.  After a completed [verifyDecryption] or a completed [setValue] of
    [PublicDecrypt], every [verifyDecryption], by whatever caller and with
    whatever cleartext and proof, fails with "No pending decryption" until
    [requestDecryption] is called again: one verification per request, and
    none for a request made before the value was replaced. *)
Theorem verification_needs_a_request (env env' : Env Storage Event) :
  (exists sender cleartexts proof, verifyDecryption sender cleartexts proof env = Ok tt env') \/
  (exists sender newValue inputProof, setValue sender newValue inputProof env = Ok tt env') ->
  forall txs sender cleartexts proof,
    Forall (fun tx => snd tx <> CallRequestDecryption) txs ->
    verifyDecryption sender cleartexts proof (run env' txs)
    = Fail (Require_failed "No pending decryption").
Proof.
  intros Hdone txs sender cleartexts proof Hall.
  assert (Hz : pendingHandle (env_storage env') = bytes32_zero).
  { destruct Hdone as [(s0 & c0 & p0 & H)|(s0 & v0 & p0 & H)].
    - rewrite pd_verifyDecryption_eq in H. cbn zeta in H.
      destruct (pendingHandle (env_storage env) =? bytes32_zero); [discriminate|].
      destruct (FHE_checkSignatures _ _ _ _); [|discriminate].
      destruct (abi_decode_uint32 c0); [|discriminate].
      injection H as <-. reflexivity.
    - rewrite pd_setValue_eq in H. cbn zeta in H.
      destruct (FHE_fromExternal _ _ _ _ _) as [[v e']|]; [|discriminate].
      injection H as <-. reflexivity. }
  rewrite pd_verifyDecryption_eq. cbn zeta.
  rewrite (pd_pending_cleared_run env' txs Hz Hall). reflexivity.
Qed.

(** X16.  [PublicDecrypt] has no replay guard and no check of the caller:
    when a [verifyDecryption] has completed in a reachable state and
    [requestDecryption] is called again, the same cleartext and proof are
    accepted again, from any caller, for the same handle, and record the
    same result. *)
Theorem same_proof_verifies_again (env env1 : Env Storage Event)
    (sender : N) (cleartexts proof : list Byte.byte) :
  reachable env ->
  verifyDecryption sender cleartexts proof env = Ok tt env1 ->
  forall requester verifier,
    let env2 := commit (requestDecryption requester) env1 in
    pendingHandle (env_storage env2) = pendingHandle (env_storage env) /\
    exists env3,
      verifyDecryption verifier cleartexts proof env2 = Ok tt env3 /\
      decryptedResult (env_storage env3) = decryptedResult (env_storage env1).
Proof.
  intros Hr Hdone requester verifier. cbn zeta.
  destruct (pending_is_current_value env Hr) as [Hp _].
  rewrite pd_verifyDecryption_eq in Hdone. cbn zeta in Hdone.
  destruct (pendingHandle (env_storage env) =? bytes32_zero) eqn:Hz; [discriminate|].
  apply N.eqb_neq in Hz. destruct Hp as [Hp|[Hp _]]; [contradiction|].
  destruct (FHE_checkSignatures _ _ _ _) eqn:Hs; [|discriminate].
  destruct (abi_decode_uint32 cleartexts) as [v|] eqn:Hd; [|discriminate].
  injection Hdone as <-.
  unfold commit. rewrite pd_requestDecryption_eq. cbn zeta. cbn [env_storage encryptedValue
    pendingHandle].
  split; [symmetry; exact Hp|].
  rewrite pd_verifyDecryption_eq. cbn zeta. cbn [env_storage env_engine pendingHandle].
  rewrite <- Hp. apply N.eqb_neq in Hz. rewrite Hz, Hs, Hd.
  eexists. split; reflexivity.
Qed.

End Facts.

Lemma pd_reachable txs : reachable (sc := SymScalar) (run pd_deployed txs).
Proof.
  assert (H : forall env, reachable (sc := SymScalar) env ->
                          reachable (sc := SymScalar) (run env txs)).
  { induction txs as [|tx txs IH]; intros env Hr; cbn; [exact Hr|].
    apply IH. apply reachable_step. exact Hr. }
  apply H. apply (reachable_constructor (fhe := SymEngine) (sc := SymScalar)).
Qed.

Lemma pending_is_current_value_witness :
  pendingHandle (env_storage pd_requested) = 127 /\
  encryptedValue (env_storage pd_requested) = 127 /\
  127 ∈ env_public pd_requested.
Proof.
  destruct (pending_is_current_value (sc := SymScalar) pd_requested
              (pd_reachable [(alice, CallRequestDecryption)])) as [[Hz|[Heq Hpub]] _].
  - exfalso. revert Hz. vm_compute. discriminate.
  - assert (Hp : pendingHandle (env_storage pd_requested) = 127) by (vm_compute; reflexivity).
    split; [exact Hp|]. split; [rewrite <- Heq; exact Hp|]. rewrite <- Hp. exact Hpub.
Defined.

Lemma isDecrypted_follows_events_witness :
  verified_result (env_events pd_verified) = Some 42 /\
  isDecrypted (env_storage pd_verified) = true /\
  decryptedResult (env_storage pd_verified) = 42.
Proof.
  assert (Hv : verified_result (env_events pd_verified) = Some 42) by (vm_compute; reflexivity).
  destruct (isDecrypted_follows_events (sc := SymScalar) pd_verified
              (pd_reachable [(alice, CallRequestDecryption);
                              (bob, CallVerifyDecryption (abi_encode_uint32 42) [Byte.x7f])]))
    as [Hflag Hres].
  split; [exact Hv|]. split.
  - apply Hflag. rewrite Hv. eexists. reflexivity.
  - apply Hres. exact Hv.
Defined.

Lemma verification_needs_a_request_witness :
  verifyDecryption bob (abi_encode_uint32 42) [Byte.x7f] pd_requested = Ok tt pd_verified /\
  verifyDecryption bob (abi_encode_uint32 42) [Byte.x7f]
    (run pd_verified [(carol, CallSetValue 5 [Byte.x03])])
  = Fail (Require_failed "No pending decryption").
Proof.
  assert (Hd : verifyDecryption bob (abi_encode_uint32 42) [Byte.x7f] pd_requested
               = Ok tt pd_verified) by (vm_compute; reflexivity).
  split; [exact Hd|].
  apply (verification_needs_a_request pd_requested pd_verified).
  - left. exists bob, (abi_encode_uint32 42), [Byte.x7f]. exact Hd.
  - apply Forall_cons. split; [discriminate|apply Forall_nil_2].
Defined.

Lemma same_proof_verifies_again_witness :
  verifyDecryption bob (abi_encode_uint32 42) [Byte.x7f] pd_requested = Ok tt pd_verified /\
  exists env3,
    verifyDecryption dave (abi_encode_uint32 42) [Byte.x7f]
      (commit (requestDecryption carol) pd_verified) = Ok tt env3 /\
    decryptedResult (env_storage env3) = decryptedResult (env_storage pd_verified).
Proof.
  assert (Hd : verifyDecryption bob (abi_encode_uint32 42) [Byte.x7f] pd_requested
               = Ok tt pd_verified) by (vm_compute; reflexivity).
  split; [exact Hd|].
  apply (same_proof_verifies_again (sc := SymScalar) pd_requested pd_verified bob
           (abi_encode_uint32 42) [Byte.x7f]
           (pd_reachable [(alice, CallRequestDecryption)]) Hd carol dave).
Defined.

End PublicDecryptFacts.

Module AccessControlFacts.
Import AccessControl.

Section Facts.
Context `{fhe : FHEVM}.

Ltac op_unfold :=
  unfold setBalance, grantViewAccess, requestOwnDecryption, requestViewerDecryption, commit,
    op_bind, op_ret, op_require, op_load, op_store, op_emit, op_fromExternal,
    op_allowThis, op_allow, op_makePubliclyDecryptable, with_env_engine in *.

Lemma setBalance_eq p enc proof (env : Env Storage Event) :
  setBalance p enc proof env =
  match FHE_fromExternal (env_engine env) contract_address p enc proof with
  | Some (b, e') =>
      Ok tt (mkEnv (mkStorage (<[p := b]> (balances (env_storage env)))
                              (hasViewAccess (env_storage env)))
                   ({[ (b, p) ]} ∪ ({[ (b, contract_address) ]} ∪ env_permissions env))
                   (env_public env) e' (env_events env ++ [BalanceSet p]))
  | None => Fail Input_proof_rejected
  end.
Proof.
  op_unfold. cbn. destruct (FHE_fromExternal _ _ _ _ _) as [[b e']|]; reflexivity.
Qed.

Lemma grantViewAccess_eq p viewer (env : Env Storage Event) :
  grantViewAccess p viewer env =
  let b := balances_at p (env_storage env) in
  if FHE_isInitialized b then
    Ok tt (mkEnv (mkStorage (balances (env_storage env))
                            (<[(p, viewer) := true]> (hasViewAccess (env_storage env))))
                 ({[ (b, viewer) ]} ∪ env_permissions env)
                 (env_public env) (env_engine env) (env_events env ++ [AccessGranted p viewer]))
  else Fail (Require_failed "No balance set").
Proof.
  op_unfold. cbn. destruct (FHE_isInitialized _); reflexivity.
Qed.

Lemma requestOwnDecryption_eq p (env : Env Storage Event) :
  requestOwnDecryption p env =
  let b := balances_at p (env_storage env) in
  if FHE_isInitialized b then
    Ok b (mkEnv (env_storage env)
                ({[ (b, p) ]} ∪ ({[ (b, contract_address) ]} ∪ env_permissions env))
                ({[ b ]} ∪ env_public env) (env_engine env) (env_events env))
  else Fail (Require_failed "No balance").
Proof.
  op_unfold. cbn. destruct (FHE_isInitialized _); reflexivity.
Qed.

Lemma requestViewerDecryption_eq viewer owner (env : Env Storage Event) :
  requestViewerDecryption viewer owner env =
  let b := balances_at owner (env_storage env) in
  if hasViewAccess_at owner viewer (env_storage env) then
    if FHE_isInitialized b then
      Ok b (mkEnv (env_storage env) (env_permissions env) ({[ b ]} ∪ env_public env)
                  (env_engine env) (env_events env))
    else Fail (Require_failed "No balance")
  else Fail (Require_failed "No view access").
Proof.
  op_unfold. cbn. destruct (hasViewAccess_at _ _ _); [|reflexivity]. cbn.
  destruct (FHE_isInitialized _); reflexivity.
Qed.

Lemma hasViewAccess_step env tx owner viewer :
  hasViewAccess_at owner viewer (env_storage env) = true ->
  hasViewAccess_at owner viewer (env_storage (step env tx)) = true.
Proof.
  intros H. destruct tx as [p [enc proof|v| |o]]; unfold step, commit; cbn [fst snd].
  - rewrite setBalance_eq. destruct (FHE_fromExternal _ _ _ _ _) as [[b e']|]; exact H.
  - rewrite grantViewAccess_eq. cbn zeta. destruct (FHE_isInitialized _); [|exact H].
    unfold hasViewAccess_at in *. cbn.
    destruct (decide ((p, v) = (owner, viewer))) as [->|Hne].
    + rewrite lookup_insert_eq. reflexivity.
    + rewrite lookup_insert_ne by assumption. exact H.
  - rewrite requestOwnDecryption_eq. cbn zeta. destruct (FHE_isInitialized _); exact H.
  - rewrite requestViewerDecryption_eq. cbn zeta.
    destruct (hasViewAccess_at o p (env_storage env)) eqn:Hop; [|exact H].
    destruct (FHE_isInitialized _); exact H.
Qed.

Lemma hasViewAccess_run env txs owner viewer :
  hasViewAccess_at owner viewer (env_storage env) = true ->
  hasViewAccess_at owner viewer (env_storage (run env txs)) = true.
Proof.
  revert env. induction txs as [|tx txs IH]; intros env H; cbn [run fold_left].
  - exact H.
  - apply IH. apply hasViewAccess_step. exact H.
Qed.

(** X17.  View access in [AccessControlExample] is never revoked and is not
    tied to a handle: once [grantViewAccess(viewer)] of an owner has
    completed, then after any later calls, a new [setBalance] of the owner
    included, [requestViewerDecryption(owner)] by the viewer returns the
    owner's current balance handle and marks it publicly decryptable,
    without checking or granting the viewer's permission on that handle; it
    fails, with "No balance", only if that handle is uninitialised. *)
Theorem view_access_is_permanent (env env' : Env Storage Event) (owner viewer : N) :
  grantViewAccess owner viewer env = Ok tt env' ->
  forall txs,
    let now := run env' txs in
    let b := balances_at owner (env_storage now) in
    hasViewAccess_at owner viewer (env_storage now) = true /\
    requestViewerDecryption viewer owner now =
    if FHE_isInitialized b then
      Ok b (mkEnv (env_storage now) (env_permissions now) ({[ b ]} ∪ env_public now)
                  (env_engine now) (env_events now))
    else Fail (Require_failed "No balance").
Proof.
  intros Hgrant txs. cbn zeta.
  assert (Hacc : hasViewAccess_at owner viewer (env_storage env') = true).
  { rewrite grantViewAccess_eq in Hgrant. cbn zeta in Hgrant.
    destruct (FHE_isInitialized _); [|discriminate]. injection Hgrant as <-.
    unfold hasViewAccess_at. cbn. rewrite lookup_insert_eq. reflexivity. }
  apply (hasViewAccess_run env' txs) in Hacc.
  split; [exact Hacc|].
  rewrite requestViewerDecryption_eq. cbn zeta. rewrite Hacc. reflexivity.
Qed.

(** X18.  In every reachable state of [AccessControlExample] the owner and
    the contract hold permission on every initialised balance handle, and
    an address pair has view access only if the owner granted it
    ([AccessGranted] was emitted) after setting a balance ([BalanceSet] was
    emitted). *)
Theorem balances_are_permitted (env : Env Storage Event) :
  reachable env ->
  (forall u, FHE_isInitialized (balances_at u (env_storage env)) = true ->
             (balances_at u (env_storage env), u) ∈ env_permissions env /\
             (balances_at u (env_storage env), contract_address) ∈ env_permissions env) /\
  (forall owner viewer,
     hasViewAccess_at owner viewer (env_storage env) = true ->
     AccessGranted owner viewer ∈ env_events env /\ BalanceSet owner ∈ env_events env) /\
  (forall u, FHE_isInitialized (balances_at u (env_storage env)) = true ->
             BalanceSet u ∈ env_events env).
Proof.
  induction 1 as [e|env [p c] Hr (IHp & IHv & IHb)].
  - cbn. split; [|split].
    + intros u H. discriminate.
    + intros o v H. discriminate.
    + intros u H. discriminate.
  - destruct c as [enc proof|v| |o]; unfold step, commit; cbn [fst snd].
    + rewrite setBalance_eq.
      destruct (FHE_fromExternal _ _ _ _ _) as [[b e']|]; [|auto].
      cbn. split; [|split].
      * intros u. unfold balances_at. cbn.
        destruct (decide (p = u)) as [->|Hne].
        -- rewrite lookup_insert_eq. cbn. intros _. set_solver.
        -- rewrite lookup_insert_ne by assumption. intros H.
           destruct (IHp u H). set_solver.
      * intros o v H. destruct (IHv o v H). set_solver.
      * intros u. unfold balances_at. cbn.
        destruct (decide (p = u)) as [->|Hne].
        -- intros _. set_solver.
        -- rewrite lookup_insert_ne by assumption. intros H. specialize (IHb u H). set_solver.
    + rewrite grantViewAccess_eq. cbn zeta.
      destruct (FHE_isInitialized (balances_at p (env_storage env))) eqn:Hinit; [|auto].
      cbn. split; [|split].
      * intros u H. destruct (IHp u H). set_solver.
      * intros o w. unfold hasViewAccess_at. cbn.
        destruct (decide ((p, v) = (o, w))) as [[= <- <-]|Hne].
        -- intros _. specialize (IHb p Hinit). set_solver.
        -- rewrite lookup_insert_ne by assumption. intros H.
           destruct (IHv o w H). set_solver.
      * intros u H. specialize (IHb u H). set_solver.
    + rewrite requestOwnDecryption_eq. cbn zeta.
      destruct (FHE_isInitialized _); [|auto].
      cbn. split; [|split; assumption].
      intros u H. destruct (IHp u H). set_solver.
    + rewrite requestViewerDecryption_eq. cbn zeta.
      destruct (hasViewAccess_at o p (env_storage env)) eqn:Hop; [|auto].
      destruct (FHE_isInitialized (balances_at o (env_storage env))) eqn:Hinit; auto.
Qed.

End Facts.

Lemma view_access_is_permanent_witness :
  balances_at alice (env_storage ac_rebalanced) = 61 /\
  ((61, bob) ∉ env_permissions ac_rebalanced) /\
  requestViewerDecryption bob alice ac_rebalanced
  = Ok 61 (mkEnv (env_storage ac_rebalanced) (env_permissions ac_rebalanced)
                 ({[ 61 ]} ∪ env_public ac_rebalanced)
                 (env_engine ac_rebalanced) (env_events ac_rebalanced)).
Proof.
  assert (Hb : balances_at alice (env_storage ac_rebalanced) = 61) by (vm_compute; reflexivity).
  split; [exact Hb|]. split.
  - vm_compute. intros H. discriminate.
  - assert (Hg : grantViewAccess alice bob
                   (run (AccessControl.constructor (fhe := SymEngine) tt)
                        [(alice, CallSetBalance 10 [Byte.x01])])
                 = Ok tt ac_granted) by (vm_compute; reflexivity).
    destruct (view_access_is_permanent _ _ alice bob Hg [(alice, CallSetBalance 20 [Byte.x01])])
      as [_ Hreq].
    fold ac_rebalanced in Hreq. rewrite Hb in Hreq. exact Hreq.
Defined.

Lemma balances_are_permitted_witness :
  balances_at alice (env_storage ac_rebalanced) = 61 /\
  (61, alice) ∈ env_permissions ac_rebalanced /\
  AccessGranted alice bob ∈ env_events ac_rebalanced.
Proof.
  assert (Hr : reachable ac_rebalanced).
  { unfold ac_rebalanced, ac_granted. cbn [run fold_left].
    repeat apply reachable_step. apply reachable_constructor. }
  assert (Hb : balances_at alice (env_storage ac_rebalanced) = 61) by (vm_compute; reflexivity).
  destruct (balances_are_permitted ac_rebalanced Hr) as (Hp & Hv & _).
  split; [exact Hb|]. split.
  - rewrite <- Hb. apply Hp. rewrite Hb. reflexivity.
  - apply (Hv alice bob). vm_compute. reflexivity.
Defined.

End AccessControlFacts.

Module EncryptSingleValueFacts.
Import EncryptSingleValue.

Section Facts.
Context `{fhe : FHEVM}.

Ltac op_unfold :=
  unfold storeValue, requestDecryption, commit,
    op_bind, op_ret, op_require, op_load, op_store, op_emit, op_fromExternal,
    op_allowThis, op_allow, op_makePubliclyDecryptable, with_env_engine in *.

Lemma esv_storeValue_eq p enc proof (env : Env Storage Event) :
  storeValue p enc proof env =
  match FHE_fromExternal (env_engine env) contract_address p enc proof with
  | Some (h, e') =>
      Ok tt (mkEnv (mkStorage (<[p := h]> (userValues (env_storage env)))
                              (<[p := true]> (hasStoredValue (env_storage env))))
                   ({[ (h, p) ]} ∪ ({[ (h, contract_address) ]} ∪ env_permissions env))
                   (env_public env) e' (env_events env ++ [ValueStored p]))
  | None => Fail Input_proof_rejected
  end.
Proof.
  op_unfold. cbn. destruct (FHE_fromExternal _ _ _ _ _) as [[h e']|]; reflexivity.
Qed.

Lemma esv_requestDecryption_eq p (env : Env Storage Event) :
  requestDecryption p env =
  let h := userValues_at p (env_storage env) in
  if hasStoredValue_at p (env_storage env) then
    Ok h (mkEnv (env_storage env)
                ({[ (h, p) ]} ∪ ({[ (h, contract_address) ]} ∪ env_permissions env))
                ({[ h ]} ∪ env_public env) (env_engine env) (env_events env))
  else Fail (Require_failed "No value stored").
Proof.
  op_unfold. cbn. destruct (hasStoredValue_at _ _); reflexivity.
Qed.

Lemma stored_value_kept (env : Env Storage Event) txs user h :
  userValues_at user (env_storage env) = h ->
  hasStoredValue_at user (env_storage env) = true ->
  Forall (no_store_by user) txs ->
  userValues_at user (env_storage (run env txs)) = h /\
  hasStoredValue_at user (env_storage (run env txs)) = true.
Proof.
  revert env. induction txs as [|[p c] txs IH]; intros env Hv Hs Hall; cbn [run fold_left].
  - split; assumption.
  - apply Forall_cons in Hall as [Hc Hall]. unfold no_store_by in Hc. cbn in Hc.
    apply IH; [| |exact Hall]; unfold step, commit; cbn [fst snd];
      (destruct c as [enc proof|];
       [rewrite esv_storeValue_eq;
        destruct (FHE_fromExternal _ _ _ _ _) as [[h' e']|]; [|assumption];
        assert (Hne : p <> user) by (intros ->; specialize (Hc eq_refl); discriminate);
        unfold userValues_at, hasStoredValue_at in *; cbn;
        rewrite lookup_insert_ne by assumption; assumption
       |rewrite esv_requestDecryption_eq; cbn zeta;
        destruct (hasStoredValue_at p (env_storage env)); assumption]).
Qed.

(** X19.  In [EncryptSingleValue], after a completed [storeValue] of a user,
    and whatever other users store or request in between,
    [requestDecryption] by that user completes and returns the handle that
    [FHE.fromExternal] gave for that value, marked publicly decryptable and
    with permission for the user and the contract; a user with no stored
    value gets "No value stored". *)
Theorem stored_value_is_returned (env env' : Env Storage Event) (user enc : N)
    (proof : list Byte.byte) :
  storeValue user enc proof env = Ok tt env' ->
  (exists h e',
     FHE_fromExternal (env_engine env) contract_address user enc proof = Some (h, e') /\
     forall txs,
       Forall (no_store_by user) txs ->
       exists env'',
         requestDecryption user (run env' txs) = Ok h env'' /\
         h ∈ env_public env'' /\
         (h, user) ∈ env_permissions env'' /\
         (h, contract_address) ∈ env_permissions env'') /\
  (forall other (env0 : Env Storage Event),
     hasStoredValue_at other (env_storage env0) = false ->
     requestDecryption other env0 = Fail (Require_failed "No value stored")).
Proof.
  intros Hstore. split.
  - rewrite esv_storeValue_eq in Hstore.
    destruct (FHE_fromExternal _ _ _ _ _) as [[h e']|]; [|discriminate].
    injection Hstore as <-. exists h, e'. split; [reflexivity|].
    intros txs Hall.
    match goal with
    | |- context [run ?e txs] =>
        destruct (stored_value_kept e txs user h) as [Hv Hs];
        [unfold userValues_at; cbn; rewrite lookup_insert_eq; reflexivity
        |unfold hasStoredValue_at; cbn; rewrite lookup_insert_eq; reflexivity
        |exact Hall|]
    end.
    rewrite esv_requestDecryption_eq. cbn zeta. rewrite Hs, Hv.
    eexists. split; [reflexivity|]. cbn. set_solver.
  - intros other env0 H. rewrite esv_requestDecryption_eq. cbn zeta. rewrite H. reflexivity.
Qed.

End Facts.

Lemma stored_value_is_returned_witness :
  let env' := run (EncryptSingleValue.constructor (fhe := SymEngine) tt)
                  [(alice, CallStoreValue 10 [Byte.x01])] in
  storeValue alice 10 [Byte.x01] (EncryptSingleValue.constructor (fhe := SymEngine) tt)
  = Ok tt env' /\
  exists env'',
    requestDecryption alice (run env' [(bob, CallStoreValue 20 [Byte.x02])]) = Ok 31 env''.
Proof.
  intros env'.
  assert (Hs : storeValue alice 10 [Byte.x01]
                 (EncryptSingleValue.constructor (fhe := SymEngine) tt) = Ok tt env')
    by (vm_compute; reflexivity).
  split; [exact Hs|].
  destruct (stored_value_is_returned _ _ alice 10 [Byte.x01] Hs)
    as [(h & e' & Hx & Hreq) _].
  assert (Hh : h = 31) by (vm_compute in Hx; injection Hx as <- _; reflexivity).
  subst h.
  destruct (Hreq [(bob, CallStoreValue 20 [Byte.x02])]) as (env'' & Hr & _).
  - apply Forall_cons. split; [|apply Forall_nil_2].
    unfold no_store_by. cbn. discriminate.
  - exists env''. exact Hr.
Defined.

End EncryptSingleValueFacts.

Module FHECounterFacts.
Import FHECounter.

Section Facts.
Context `{fhe : FHEVM} `{sc : !FHEVMScalar}.

Ltac op_unfold :=
  unfold increment, addEncrypted, requestDecryption, FHECounter.constructor, commit,
    op_bind, op_ret, op_load, op_store, op_emit, op_fromExternal, op_add, op_add_scalar,
    op_asEuint32, op_allowThis, op_allow, op_makePubliclyDecryptable, with_env_engine in *.

Lemma constructor_counter e :
  encryptedCounter (env_storage (FHECounter.constructor e)) = fst (FHE_asEuint32 e 0).
Proof. op_unfold. cbn. destruct (FHE_asEuint32 e 0) as [h e']. reflexivity. Qed.

Lemma increment_counter p (env : Env Storage Event) :
  encryptedCounter (env_storage (commit (increment p) env))
  = fst (FHE_add_scalar (env_engine env) (encryptedCounter (env_storage env)) 1).
Proof.
  op_unfold. cbn. destruct (FHE_add_scalar _ _ _) as [h e']. reflexivity.
Qed.

Lemma addEncrypted_counter p enc proof (env : Env Storage Event) :
  encryptedCounter (env_storage (commit (addEncrypted p enc proof) env))
  = match FHE_fromExternal (env_engine env) contract_address p enc proof with
    | Some (h, e') => fst (FHE_add e' (encryptedCounter (env_storage env)) h)
    | None => encryptedCounter (env_storage env)
    end.
Proof.
  op_unfold. cbn. destruct (FHE_fromExternal _ _ _ _ _) as [[h e']|]; [|reflexivity]. cbn.
  destruct (FHE_add _ _ _) as [h' e'']. reflexivity.
Qed.

Lemma fc_requestDecryption_eq p (env : Env Storage Event) :
  requestDecryption p env =
  let c := encryptedCounter (env_storage env) in
  Ok c (mkEnv (env_storage env)
              ({[ (c, p) ]} ∪ ({[ (c, contract_address) ]} ∪ env_permissions env))
              ({[ c ]} ∪ env_public env) (env_engine env)
              (env_events env ++ [DecryptionRequested c])).
Proof. reflexivity. Qed.

Lemma additions_app plain env txs1 txs2 :
  additions plain env (txs1 ++ txs2)
  = additions plain env txs1 ++ additions plain (run env txs1) txs2.
Proof.
  revert env. induction txs1 as [|tx txs1 IH]; intros env.
  - reflexivity.
  - cbn [app additions run fold_left]. rewrite IH, app_assoc. reflexivity.
Qed.

(** X20.  With a homomorphic library, after any sequence of calls from
    deployment the counter of [FHECounter] decrypts to the sum of what the
    calls added (1 per [increment], the plaintext of the input per completed
    [addEncrypted]) modulo 2^32: the counter wraps silently.
    [requestDecryption] always completes, leaves the counter as it is and
    returns its handle. *)
Theorem counter_is_sum_of_additions (plain : N -> N) (e : coprocessor)
    (txs : list (N * Call)) :
  homomorphic_scalar plain ->
  let env := run (FHECounter.constructor e) txs in
  plain (encryptedCounter (env_storage env))
  = N_sum (additions plain (FHECounter.constructor e) txs) mod (max_uint32 + 1) /\
  forall requester,
    exists env',
      requestDecryption requester env = Ok (encryptedCounter (env_storage env)) env' /\
      encryptedCounter (env_storage env') = encryptedCounter (env_storage env) /\
      encryptedCounter (env_storage env) ∈ env_public env'.
Proof.
  intros ((Hb & Hadd & _) & Htriv & Hscalar). cbn zeta.
  split.
  - induction txs as [|[p c] txs IH] using rev_ind.
    + cbn [run fold_left additions]. rewrite constructor_counter, Htriv. reflexivity.
    + unfold run in *. rewrite fold_left_app, additions_app. cbn [fold_left].
      fold (run (FHECounter.constructor e) txs) in *.
      set (env := run (FHECounter.constructor e) txs) in *.
      cbn [additions fst snd]. rewrite app_nil_r.
      unfold step. cbn [fst snd].
      destruct c as [|enc proof|].
      * rewrite increment_counter, Hscalar, IH, N_sum_snoc.
        apply N.Div0.add_mod_idemp_l.
      * rewrite addEncrypted_counter.
        destruct (FHE_fromExternal _ _ _ _ _) as [[h e']|].
        -- rewrite Hadd, IH, N_sum_snoc. apply N.Div0.add_mod_idemp_l.
        -- rewrite app_nil_r. exact IH.
      * rewrite app_nil_r. exact IH.
  - intros requester. rewrite fc_requestDecryption_eq. cbn zeta.
    eexists. split; [reflexivity|]. split; [reflexivity|]. cbn. set_solver.
Qed.

End Facts.

Lemma WrapScalar_homomorphic :
  homomorphic_scalar (fhe := WrapEngine) (sc := WrapScalar) wrap_plain.
Proof.
  split; [exact WrapEngine_homomorphic|].
  unfold wrap_plain. cbn. split.
  - intros _ v. apply N.Div0.mod_mod.
  - intros _ a v. rewrite N.Div0.mod_mod. symmetry. apply N.Div0.add_mod_idemp_l.
Qed.

Lemma counter_is_sum_of_additions_witness :
  let txs := [(alice, CallIncrement); (bob, CallAddEncrypted 4294967295 []);
              (carol, CallIncrement)] in
  let deployed := FHECounter.constructor (fhe := WrapEngine) (sc := WrapScalar) tt in
  let env := run (sc := WrapScalar) deployed txs in
  additions (sc := WrapScalar) wrap_plain deployed txs = [1; 4294967295; 1] /\
  encryptedCounter (env_storage env) = 1 /\
  wrap_plain (encryptedCounter (env_storage env)) = (1 + 4294967295 + 1) mod 4294967296.
Proof.
  intros txs deployed env.
  assert (Ha : additions (sc := WrapScalar) wrap_plain deployed txs = [1; 4294967295; 1])
    by (vm_compute; reflexivity).
  split; [exact Ha|]. split; [vm_compute; reflexivity|].
  destruct (counter_is_sum_of_additions (sc := WrapScalar) wrap_plain tt txs
              WrapScalar_homomorphic) as [Hsum _].
  fold deployed in Hsum. fold env in Hsum. rewrite Hsum, Ha. reflexivity.
Defined.

End FHECounterFacts.

(** * Properties of the front end *)

Module FetchRetryFacts.
Import FetchRetry.

(** The attempt numbers below [retries], by its budget. *)
Lemma below_ceiling (a : N) (q : Q) :
  (Z.of_N a * Z.pos (Qden q) <? Qnum q)%Z = (Z.of_N a <? Qceiling q)%Z.
Proof.
  destruct q as [num den]. unfold Qceiling, Qfloor. cbn.
  pose proof (Z.mul_div_le (- num) (Z.pos den) ltac:(lia)) as Hlo.
  pose proof (Z.mul_succ_div_gt (- num) (Z.pos den) ltac:(lia)) as Hhi.
  destruct (Z.ltb_spec (Z.of_N a * Z.pos den) num) as [H1|H1];
    destruct (Z.ltb_spec (Z.of_N a) (- (- num / Z.pos den))) as [H2|H2];
    try reflexivity; exfalso; nia.
Qed.

Lemma below_budget limit b (a : N) :
  retry_budget limit = Some b ->
  below a limit = (a <? N.of_nat b).
Proof.
  destruct limit as [| | |q]; cbn [retry_budget below].
  - intros [= <-]. symmetry. apply N.ltb_ge. lia.
  - discriminate.
  - intros [= <-]. symmetry. apply N.ltb_ge. lia.
  - cbn zeta. destruct (Z.leb_spec (Z.max 0 (Qceiling q)) (Z.of_N max_exact)); [|discriminate].
    intros [= <-]. rewrite below_ceiling.
    destruct (Z.ltb_spec (Z.of_N a) (Qceiling q)); destruct (N.ltb_spec a (N.of_nat (Z.to_nat (Z.max 0 (Qceiling q)))));
      try reflexivity; exfalso; lia.
Qed.

Lemma budget_exact limit b : retry_budget limit = Some b -> N.of_nat b <= max_exact.
Proof.
  destruct limit as [| | |q]; cbn [retry_budget].
  - intros [= <-]. cbn. lia.
  - discriminate.
  - intros [= <-]. cbn. lia.
  - cbn zeta. destruct (Z.leb_spec (Z.max 0 (Qceiling q)) (Z.of_N max_exact)); [|discriminate].
    intros [= <-]. lia.
Qed.

Lemma below_unbounded limit (a : N) :
  retry_budget limit = None -> a <= max_exact -> below a limit = true.
Proof.
  destruct limit as [| | |q]; cbn [retry_budget below]; try discriminate; [reflexivity|].
  cbn zeta. destruct (Z.leb_spec (Z.max 0 (Qceiling q)) (Z.of_N max_exact)); [discriminate|].
  intros _ Ha. rewrite below_ceiling. apply Z.ltb_lt. lia.
Qed.

Lemma attempt_of_exact k : N.of_nat k <= max_exact -> attempt_of k = N.of_nat k.
Proof. unfold attempt_of. lia. Qed.

Lemma next_attempt_of k : next_attempt (attempt_of k) = attempt_of (S k).
Proof.
  unfold next_attempt, attempt_of.
  destruct (N.ltb_spec (N.min (N.of_nat k) max_exact) max_exact); lia.
Qed.

Section Facts.
Context {Response Err : Type}.
Context (status : Response -> Z) (fetch : nat -> Response + Err).
Context (on : RetryOn (Response := Response) (Err := Err)) (limit : JSNumber).

(** More fuel does not change how the promise settles. *)
Lemma attemptFetch_fuel fuel :
  forall fuel' calls attempt r,
    (fuel <= fuel')%nat ->
    attemptFetch status fetch on limit fuel calls attempt = Some r ->
    attemptFetch status fetch on limit fuel' calls attempt = Some r.
Proof.
  induction fuel as [|fuel IH]; intros fuel' calls attempt r Hle; [discriminate|].
  destruct fuel' as [|fuel']; [lia|].
  cbn [attemptFetch]. cbn zeta.
  destruct (shouldRetry status on limit attempt (fetch calls) && below attempt limit).
  - apply IH. lia.
  - auto.
Qed.

(** With a budget of [b] retries the promise settles, at the first call
    that is not to be retried or at call [b]. *)
Lemma attemptFetch_settles b fuel :
  retry_budget limit = Some b ->
  forall calls,
    (calls <= b)%nat ->
    (b - calls < fuel)%nat ->
    exists n,
      attemptFetch status fetch on limit fuel calls (attempt_of calls)
      = Some (settle (fetch n), S n) /\
      (calls <= n <= b)%nat /\
      (forall k, (calls <= k < n)%nat -> retryable status fetch on limit k) /\
      (retryable status fetch on limit n -> n = b).
Proof.
  intros Hb. pose proof (budget_exact _ _ Hb) as Hex.
  induction fuel as [|fuel IH]; intros calls Hcalls Hfuel; [lia|].
  cbn [attemptFetch]. cbn zeta.
  assert (Ha : attempt_of calls = N.of_nat calls) by (apply attempt_of_exact; lia).
  rewrite (below_budget _ _ _ Hb), next_attempt_of.
  destruct (shouldRetry status on limit (attempt_of calls) (fetch calls)) eqn:Hretry;
    cbn [andb].
  - destruct (N.ltb_spec (attempt_of calls) (N.of_nat b)) as [Hlt|Hge].
    + destruct (IH (S calls)) as (n & Hrun & Hn & Hbefore & Hlast); [lia|lia|].
      exists n. split; [exact Hrun|]. split; [lia|]. split; [|exact Hlast].
      intros k Hk. destruct (decide (k = calls)) as [->|Hne]; [exact Hretry|].
      apply Hbefore. lia.
    + exists calls. split; [reflexivity|]. split; [lia|].
      split; [intros k Hk; lia|]. intros _. lia.
  - exists calls. split; [reflexivity|]. split; [lia|].
    split; [intros k Hk; lia|].
    unfold retryable. rewrite Hretry. discriminate.
Qed.

(** Without a budget the promise settles at the first call that is not to
    be retried, and only there. *)
Lemma attemptFetch_unbounded fuel :
  retry_budget limit = None ->
  forall calls,
    match attemptFetch status fetch on limit fuel calls (attempt_of calls) with
    | Some (s, m) =>
        exists n, m = S n /\ s = settle (fetch n) /\ (calls <= n < calls + fuel)%nat /\
                  (forall k, (calls <= k < n)%nat -> retryable status fetch on limit k) /\
                  ~ retryable status fetch on limit n
    | None => forall k, (calls <= k < calls + fuel)%nat -> retryable status fetch on limit k
    end.
Proof.
  intros Hb. induction fuel as [|fuel IH]; intros calls.
  - cbn. intros k Hk. lia.
  - cbn [attemptFetch]. cbn zeta.
    rewrite (below_unbounded limit (attempt_of calls) Hb) by (unfold attempt_of; lia).
    rewrite andb_true_r.
    destruct (shouldRetry status on limit (attempt_of calls) (fetch calls)) eqn:Hretry.
    + rewrite next_attempt_of. specialize (IH (S calls)).
      destruct (attemptFetch status fetch on limit fuel (S calls) (attempt_of (S calls)))
        as [[s m]|].
      * destruct IH as (n & -> & -> & Hn & Hbefore & Hlast).
        exists n. split; [reflexivity|]. split; [reflexivity|]. split; [lia|].
        split; [|exact Hlast].
        intros k Hk. destruct (decide (k = calls)) as [->|Hne]; [exact Hretry|].
        apply Hbefore. lia.
      * intros k Hk. destruct (decide (k = calls)) as [->|Hne]; [exact Hretry|].
        apply IH. lia.
    + exists calls. split; [reflexivity|]. split; [reflexivity|]. split; [lia|].
      split; [intros k Hk; lia|].
      unfold retryable. rewrite Hretry. discriminate.
Qed.

End Facts.

Section Settling.
Context {Response Err : Type}.
Context (status : Response -> Z) (fetch : nat -> Response + Err).

(** X21.  How [fetchWithRetry] settles depends on [retries], a number.
    When [retries] is not a number, negative, or finite and at most 2^53,
    the attempt numbers below it are those below its ceiling [b] (0 when
    [retries] is not a number or negative; 3 for 2.5): the promise settles
    after at least one and at most [b + 1] calls to [fetch], with the
    outcome of the last call made; every earlier call had an outcome to be
    retried, and the last call is the first whose outcome is not to be
    retried, unless it is call [b].  When [retries] is [Infinity] or above
    2^53, where the attempt counter stops, the promise settles only at a
    call whose outcome is not to be retried: it settles at the first such
    call, and never when every outcome is to be retried. *)
Theorem fetch_settles_with_last_outcome
    (defaults init : option (RetryOptions (Response := Response) (Err := Err))) :
  let limit := chosen_retries init defaults in
  let on := chosen_retryOn init defaults in
  (forall b,
     retry_budget limit = Some b ->
     exists n,
       (forall fuel, (b < fuel)%nat ->
          fetchWithRetry status fetch fuel defaults init = Some (settle (fetch n), S n)) /\
       (n <= b)%nat /\
       (forall k, (k < n)%nat -> retryable status fetch on limit k) /\
       (retryable status fetch on limit n -> n = b)) /\
  (retry_budget limit = None ->
   (forall n,
      (forall k, (k < n)%nat -> retryable status fetch on limit k) ->
      ~ retryable status fetch on limit n ->
      forall fuel, (n < fuel)%nat ->
        fetchWithRetry status fetch fuel defaults init = Some (settle (fetch n), S n)) /\
   ((forall k, retryable status fetch on limit k) ->
    forall fuel, fetchWithRetry status fetch fuel defaults init = None)).
Proof.
  cbn zeta. unfold fetchWithRetry. split.
  - intros b Hb.
    destruct (attemptFetch_settles status fetch (chosen_retryOn init defaults)
                (chosen_retries init defaults) b (S b) Hb 0%nat)
      as (n & Hrun & Hn & Hbefore & Hlast); [lia|lia|].
    exists n. split; [|split; [lia|split; [|exact Hlast]]].
    + intros fuel Hfuel.
      apply (attemptFetch_fuel status fetch _ _ (S b)); [lia|exact Hrun].
    + intros k Hk. apply Hbefore. lia.
  - intros Hb. split.
    + intros n Hbefore Hlast fuel Hfuel.
      pose proof (attemptFetch_unbounded status fetch (chosen_retryOn init defaults)
                    (chosen_retries init defaults) fuel Hb 0%nat) as Hrun.
      change (attempt_of 0) with 0 in Hrun.
      destruct (attemptFetch status fetch (chosen_retryOn init defaults)
                  (chosen_retries init defaults) fuel 0 0) as [[s m]|].
      * destruct Hrun as (n' & -> & -> & Hn' & Hbefore' & Hlast').
        destruct (lt_eq_lt_dec n n') as [[Hlt| ->]|Hgt].
        -- exfalso. apply Hlast. apply Hbefore'. lia.
        -- reflexivity.
        -- exfalso. apply Hlast'. apply Hbefore. exact Hgt.
      * exfalso. apply Hlast. apply Hrun. lia.
    + intros Hall fuel.
      pose proof (attemptFetch_unbounded status fetch (chosen_retryOn init defaults)
                    (chosen_retries init defaults) fuel Hb 0%nat) as Hrun.
      change (attempt_of 0) with 0 in Hrun.
      destruct (attemptFetch status fetch (chosen_retryOn init defaults)
                  (chosen_retries init defaults) fuel 0 0) as [[s m]|]; [|reflexivity].
      destruct Hrun as (n' & _ & _ & _ & _ & Hlast'). exfalso. apply Hlast'. apply Hall.
Qed.

(** X22.  With a list of statuses as [retryOn] (the default is 500, 502,
    503, 504, with 3 retries) and [retries] allowing [b] retries, the
    promise resolves at the first response whose status is not in the list;
    when every one of the [b + 1] calls fails or answers with a listed
    status, it settles with the outcome of the last call, resolving with
    the listed status or rejecting with the error: it never rejects before
    call [b].  With [retries] [Infinity] or above 2^53 it never rejects at
    all: if it settles, it resolves with a response whose status is not in
    the list. *)
Theorem status_list_retries (statuses : list JSNumber)
    (defaults init : option (RetryOptions (Response := Response) (Err := Err))) :
  chosen_retryOn init defaults = StatusList statuses ->
  let limit := chosen_retries init defaults in
  (forall b,
     retry_budget limit = Some b ->
     exists n,
       (forall fuel, (b < fuel)%nat ->
          fetchWithRetry status fetch fuel defaults init = Some (settle (fetch n), S n)) /\
       (n <= b)%nat /\
       (forall k, (k < n)%nat ->
          match fetch k with
          | inl response => includes statuses (status response) = true
          | inr _ => True
          end) /\
       match fetch n with
       | inl response => includes statuses (status response) = false \/ n = b
       | inr _ => n = b
       end) /\
  (retry_budget limit = None ->
   forall fuel s m,
     fetchWithRetry status fetch fuel defaults init = Some (s, m) ->
     exists n response,
       m = S n /\ fetch n = inl response /\ s = Resolved response /\
       includes statuses (status response) = false).
Proof.
  intros Hon. cbn zeta. unfold fetchWithRetry. rewrite Hon. split.
  - intros b Hb. pose proof (budget_exact _ _ Hb) as Hex.
    destruct (attemptFetch_settles status fetch (StatusList statuses)
                (chosen_retries init defaults) b (S b) Hb 0%nat)
      as (n & Hrun & Hn & Hbefore & Hlast); [lia|lia|].
    exists n. split; [|split; [lia|split]].
    + intros fuel Hfuel.
      apply (attemptFetch_fuel status fetch _ _ (S b)); [lia|exact Hrun].
    + intros k Hk. specialize (Hbefore k ltac:(lia)).
      unfold retryable, shouldRetry in Hbefore.
      destruct (fetch k) as [response|error]; [exact Hbefore|exact I].
    + unfold retryable, shouldRetry in Hlast.
      destruct (fetch n) as [response|error].
      * destruct (includes statuses (status response)); [right; auto|left; reflexivity].
      * rewrite (below_budget _ _ _ Hb), attempt_of_exact in Hlast by lia.
        destruct (N.ltb_spec (N.of_nat n) (N.of_nat b)) as [Hlt|Hge]; [auto|lia].
  - intros Hb fuel s m Hrun.
    pose proof (attemptFetch_unbounded status fetch (StatusList statuses)
                  (chosen_retries init defaults) fuel Hb 0%nat) as Hspec.
    change (attempt_of 0) with 0 in Hspec. rewrite Hrun in Hspec.
    destruct Hspec as (n & -> & -> & _ & _ & Hlast).
    unfold retryable, shouldRetry in Hlast.
    destruct (fetch n) as [response|error] eqn:Hf.
    + exists n, response. split; [reflexivity|]. split; [exact Hf|].
      split; [reflexivity|]. apply not_true_is_false. exact Hlast.
    + exfalso. apply Hlast. apply below_unbounded; [exact Hb|].
      unfold attempt_of. lia.
Qed.

End Settling.

(** With [retries: 2.5] a server that always answers 503 is called four
    times; with [retries: Infinity] the calls never end. *)
Lemma fetch_settles_with_last_outcome_witness :
  let fractional := Some (mkOptions (Response := Z) (Err := unit) (Some (Finite (5 # 2))) None) in
  let unbounded := Some (mkOptions (Response := Z) (Err := unit) (Some PosInfinity) None) in
  retry_budget (Finite (5 # 2)) = Some 3%nat /\
  fetchWithRetry id always_503 4 None fractional = Some (Resolved 503%Z, 4%nat) /\
  forall fuel, fetchWithRetry id always_503 fuel None unbounded = None.
Proof.
  intros fractional unbounded.
  pose proof (fetch_settles_with_last_outcome (Response := Z) (Err := unit) id always_503
                None fractional) as [Hsettles _].
  pose proof (fetch_settles_with_last_outcome (Response := Z) (Err := unit) id always_503
                None unbounded) as [_ Hnever].
  split; [reflexivity|]. split.
  - destruct (Hsettles 3%nat eq_refl) as (n & Hrun & _).
    specialize (Hrun 4%nat ltac:(lia)).
    assert (Hn : n = 3%nat) by (vm_compute in Hrun; congruence).
    rewrite Hrun, Hn. reflexivity.
  - apply (Hnever eq_refl). intros k. reflexivity.
Defined.

Lemma status_list_retries_witness :
  fetchWithRetry (Response := Z) (Err := unit) id flaky 4 None None
  = Some (Resolved 200%Z, 3%nat).
Proof.
  destruct (status_list_retries (Response := Z) (Err := unit) id flaky
              [integer 500; integer 502; integer 503; integer 504] None None eq_refl)
    as [Hsettles _].
  destruct (Hsettles 3%nat eq_refl) as (n & Hrun & _).
  specialize (Hrun 4%nat ltac:(lia)).
  assert (Hn : n = 2%nat) by (vm_compute in Hrun; congruence).
  rewrite Hrun, Hn. reflexivity.
Defined.

End FetchRetryFacts.

Module DemoDataFacts.
Import DemoData.

Lemma replay_since_clear actions :
  forall d acc,
    salaries d = acc.*1 ->
    NoDup (submittedAddresses d) ->
    (forall a, a ∈ submittedAddresses d <-> a ∈ acc.*2) ->
    let d' := replay d actions in
    let added := since_clear actions acc in
    salaries d' = added.*1 /\
    NoDup (submittedAddresses d') /\
    (forall a, a ∈ submittedAddresses d' <-> a ∈ added.*2).
Proof.
  induction actions as [|[salary address|] actions IH]; intros d acc Hs Hn Ha; cbn zeta.
  - auto.
  - cbn [replay fold_left since_clear apply_action]. apply IH.
    + cbn. rewrite Hs, fmap_app. reflexivity.
    + cbn. case_bool_decide as Hin; [exact Hn|].
      apply NoDup_app. split; [exact Hn|]. split; [|apply NoDup_singleton].
      intros x Hx Hx'. apply list_elem_of_singleton in Hx'. subst x. contradiction.
    + intros a. cbn. rewrite fmap_app, elem_of_app. cbn. rewrite list_elem_of_singleton.
      case_bool_decide as Hin.
      * rewrite Ha. split; [auto|]. intros [H| ->]; [exact H|]. apply Ha. exact Hin.
      * rewrite elem_of_app, list_elem_of_singleton, Ha. reflexivity.
  - cbn [replay fold_left since_clear apply_action]. apply IH.
    + reflexivity.
    + apply NoDup_nil_2.
    + intros a. reflexivity.
Qed.

(** X23.  The demo ledger counts calls, not submitters: after any sequence
    of [addSalary] and [clear] from the empty ledger, [getCount()] is the
    number of [addSalary] calls since the last [clear], an address that
    submits again being counted again, while the submitted addresses are
    pairwise distinct, are exactly the addresses of those calls, and are
    never more than [getCount()]. *)
Theorem demo_count_is_number_of_calls (actions : list Action) :
  let d := replay empty actions in
  let added := since_clear actions [] in
  getCount d = length added /\
  NoDup (submittedAddresses d) /\
  (forall a, hasSubmitted d a = true <-> a ∈ added.*2) /\
  (length (submittedAddresses d) <= getCount d)%nat.
Proof.
  cbn zeta.
  destruct (replay_since_clear actions empty []) as (Hs & Hn & Ha).
  - reflexivity.
  - apply NoDup_nil_2.
  - intros a. reflexivity.
  - cbn zeta in Hs, Hn, Ha.
    assert (Hc : getCount (replay empty actions) = length (since_clear actions [])).
    { unfold getCount. rewrite Hs, length_fmap. reflexivity. }
    split; [exact Hc|]. split; [exact Hn|]. split.
    + intros a. unfold hasSubmitted. rewrite bool_decide_eq_true. apply Ha.
    + rewrite Hc, <- (length_fmap snd (since_clear actions [])).
      apply submseteq_length. apply NoDup_submseteq; [exact Hn|].
      intros x Hx. apply Ha. exact Hx.
Qed.

Lemma demo_count_is_number_of_calls_witness :
  let d := replay empty [AddSalary 50000 "0xA"; AddSalary 60000 "0xA"] in
  getCount d = 2%nat /\ submittedAddresses d = ["0xA"%string] /\
  hasSubmitted d "0xA" = true.
Proof.
  intros d.
  destruct (demo_count_is_number_of_calls [AddSalary 50000 "0xA"; AddSalary 60000 "0xA"])
    as (Hc & _ & Hs & _).
  split; [exact Hc|]. split; [reflexivity|].
  apply Hs. cbn. apply elem_of_cons. left. reflexivity.
Defined.

End DemoDataFacts.
